(** * Rosco: state replication between an owner tab and its player tabs

    A shallow embedding of [src/App.tsx]: the question-bank ingestion, the
    owner's game operations, the outbound broadcast functions and the
    player's inbound handlers, with the properties the specification states
    about them.

    Conventions.
    - A JavaScript number is modelled as an integer ([Z]) and stands for a
      finite whole number that a double holds; the game produces no other
      (indices, whole seconds, [Math.round] results). Where the code
      computes with a number that can be large, the rounding of doubles is
      written out ([minus_one]). The default read from the
      [rosco-default-seconds] slot at start is taken to be one the page
      stored there, the result of a [Math.round]. The two clocks are read
      in whole milliseconds.
    - A value that crosses a transport, or that comes out of [JSON.parse],
      is untyped in the source ([any]); it is a [JsValue] here.
    - React state is a record, a [setX] call is a function on it, and an
      effect is a function from the rendered state (the closure's values)
      to the next state and the messages it sends. *)

From Stdlib Require Import ZArith String Ascii DecimalString List Bool Lia.
From stdpp Require Import base list.
Import ListNotations.

Local Open Scope string_scope.
Local Open Scope list_scope.
Local Open Scope Z_scope.

(** ** JavaScript values *)

Module Js.

#[warnings="-register-all"]
Inductive JsValue : Type :=
| JUndefined
| JNull
| JBool (b : bool)
| JNum (n : Z)
| JStr (s : string)
| JArr (elems : list JsValue)
| JObj (fields : list (string * JsValue)).   (* keys are distinct *)

(** [!!v]: undefined, null, false, 0 and the empty string are falsy. *)
Definition truthy (v : JsValue) : bool :=
  match v with
  | JUndefined | JNull => false
  | JBool b => b
  | JNum n => negb (n =? 0)%Z
  | JStr s => negb (s =? "")%string
  | JArr _ | JObj _ => true
  end.

Definition nullish (v : JsValue) : bool :=
  match v with
  | JUndefined | JNull => true
  | _ => false
  end.

Fixpoint lookup_field (k : string) (fs : list (string * JsValue)) : JsValue :=
  match fs with
  | [] => JUndefined
  | (k', v) :: rest => if (k' =? k)%string then v else lookup_field k rest
  end.

(** [v.k] for a value that is neither null nor undefined and a key that is
    not a built-in property: the field of an object, undefined otherwise. *)
Definition prop (v : JsValue) (k : string) : JsValue :=
  match v with
  | JObj fs => lookup_field k fs
  | _ => JUndefined
  end.

(** [v === s] for a string [s]. *)
Definition is_str (v : JsValue) (s : string) : bool :=
  match v with
  | JStr t => (t =? s)%string
  | _ => false
  end.

(** The built-ins the source calls and whose text is not part of the
    repository. [JSON_parse] is [None] where [JSON.parse] throws;
    [String_] is the conversion [String(v)], the identity on strings. *)
Class Runtime : Type := {
  JSON_parse : string -> option JsValue;
  toUpperCase : string -> string;
  String_ : JsValue -> string;
  String_of_string : forall s, String_ (JStr s) = s;
  JSON_parse_empty : JSON_parse "" = None
}.

End Js.
Import Js.

(** ** Data model *)

Inductive Rule := Empieza | Contiene | Termina.
Inductive Status := Pendiente | Bien | Mal | Pasada.

Record Item := mkItem {
  letter : string;
  rule : Rule;
  prompt : string;
  answer : string
}.

(** [interface PlayItem extends Item { status: Status }] *)
Record PlayItem := mkPlay {
  base : Item;
  status : Status
}.

Definition rule_str (r : Rule) : string :=
  match r with
  | Empieza => "empieza"
  | Contiene => "contiene"
  | Termina => "termina"
  end.

Definition status_str (s : Status) : string :=
  match s with
  | Pendiente => "pendiente"
  | Bien => "bien"
  | Mal => "mal"
  | Pasada => "pasada"
  end.

(** [{ ...cur, status }] *)
Definition with_status (cur : PlayItem) (st : Status) : PlayItem :=
  {| base := base cur; status := st |}.

Definition FALLBACK_DBZ : list Item := [].

(** ** Question-bank ingestion ([loadFromUrl], [loadFromFile]) *)

Section Ingestion.
Context {rt : Runtime}.

(** [d && d.letter && d.rule && d.prompt && d.answer] *)
Definition valid_record (d : JsValue) : bool :=
  truthy d && truthy (prop d "letter") && truthy (prop d "rule")
  && truthy (prop d "prompt") && truthy (prop d "answer").

(** [["empieza", "contiene", "termina"].includes(v)], with the rule found. *)
Definition known_rule (v : JsValue) : option Rule :=
  if is_str v "empieza" then Some Empieza
  else if is_str v "contiene" then Some Contiene
  else if is_str v "termina" then Some Termina
  else None.

Definition to_play (d : JsValue) : PlayItem :=
  {| base := {| letter := toUpperCase (String_ (prop d "letter"));
                rule := match known_rule (prop d "rule") with
                        | Some r => r
                        | None => Empieza
                        end;
                prompt := String_ (prop d "prompt");
                answer := String_ (prop d "answer") |};
     status := Pendiente |}.

(** [Array.isArray(data) ? data : []] *)
Definition as_array (data : JsValue) : list JsValue :=
  match data with
  | JArr l => l
  | _ => []
  end.

Definition mapped (data : JsValue) : list PlayItem :=
  map to_play (List.filter valid_record (as_array data)).

(** [FALLBACK_DBZ.map(i => ({ ...i, letter: i.letter.toUpperCase(),
    status: "pendiente" }))] *)
Definition fallback_bank : list PlayItem :=
  map (fun i => {| base := {| letter := toUpperCase (letter i);
                              rule := rule i;
                              prompt := prompt i;
                              answer := answer i |};
                   status := Pendiente |}) FALLBACK_DBZ.

End Ingestion.

(** What the [try] block of a load can throw. *)
Inductive LoadError :=
| HttpError (http_status : Z)        (* [throw new Error(`HTTP ${res.status}`)] *)
| EmptyOrMalformed                   (* [throw new Error("El JSON ...")] *)
| Thrown (message : string).         (* a rejected fetch, a JSON syntax error *)

(** The outcome of [fetch(url)] followed by [res.json()]. *)
Inductive Fetched :=
| FetchRejected (message : string)
| FetchNotOk (http_status : Z)
| FetchBadJson (message : string)
| FetchJson (data : JsValue).

(** The outcome of [file.text()] followed by [JSON.parse(text)]. *)
Inductive FileRead :=
| FileBadJson (message : string)
| FileJson (data : JsValue).

(** The messages shown through [setSnack]. *)
Inductive Notice :=
| BankLoaded
| BankLoadedFromFile
| UrlLoadFailed (e : LoadError)
| FileLoadFailed (e : LoadError)
| InvalidTimerFormat
| LinkCopied.

(** ** The component's state *)

Inductive Role := Owner | Player.

Definition is_owner (r : Role) : bool :=
  match r with Owner => true | Player => false end.

(** The [useState] cells of [App] in an owner session. *)
Record App := mkApp {
  role : Role;
  roomId : string;
  items : list PlayItem;
  idx : Z;
  running : bool;
  finished : bool;
  snack : option Notice;
  defaultSeconds : Z;
  seconds : Z;
  joined : bool
}.

Definition setItems (v : list PlayItem) (a : App) : App :=
  mkApp (role a) (roomId a) v (idx a) (running a) (finished a) (snack a)
        (defaultSeconds a) (seconds a) (joined a).
Definition setIdx (v : Z) (a : App) : App :=
  mkApp (role a) (roomId a) (items a) v (running a) (finished a) (snack a)
        (defaultSeconds a) (seconds a) (joined a).
Definition setRunning (v : bool) (a : App) : App :=
  mkApp (role a) (roomId a) (items a) (idx a) v (finished a) (snack a)
        (defaultSeconds a) (seconds a) (joined a).
Definition setFinished (v : bool) (a : App) : App :=
  mkApp (role a) (roomId a) (items a) (idx a) (running a) v (snack a)
        (defaultSeconds a) (seconds a) (joined a).
Definition setSnack (v : Notice) (a : App) : App :=
  mkApp (role a) (roomId a) (items a) (idx a) (running a) (finished a) (Some v)
        (defaultSeconds a) (seconds a) (joined a).
Definition setDefaultSeconds (v : Z) (a : App) : App :=
  mkApp (role a) (roomId a) (items a) (idx a) (running a) (finished a) (snack a)
        v (seconds a) (joined a).
Definition setSeconds (v : Z) (a : App) : App :=
  mkApp (role a) (roomId a) (items a) (idx a) (running a) (finished a) (snack a)
        (defaultSeconds a) v (joined a).
Definition setJoined (v : bool) (a : App) : App :=
  mkApp (role a) (roomId a) (items a) (idx a) (running a) (finished a) (snack a)
        (defaultSeconds a) (seconds a) v.

(** The first render: [useState] initial values. [d0] is the number read
    from the [rosco-default-seconds] slot (180 when there is none). *)
Definition initial (r : Role) (room : string) (d0 : Z) : App :=
  mkApp r room [] 0 false false None d0 d0 false.

(** [a |> f |> g]: the [setX] calls of a handler, in source order. *)
Local Notation "a |> f" := (f a) (at level 45, left associativity, only parsing).

(** ** Loading a bank *)

Section Loading.
Context {rt : Runtime}.

Definition nonempty_or_throw (m : list PlayItem) : LoadError + list PlayItem :=
  match m with
  | [] => inl EmptyOrMalformed        (* [if (!mapped.length) throw ...] *)
  | _ :: _ => inr m
  end.

(** The [try] block of [loadFromUrl], up to the first [setItems]. *)
Definition try_url (r : Fetched) : LoadError + list PlayItem :=
  match r with
  | FetchRejected msg => inl (Thrown msg)
  | FetchNotOk st => inl (HttpError st)
  | FetchBadJson msg => inl (Thrown msg)
  | FetchJson data => nonempty_or_throw (mapped data)
  end.

(** The [try] block of [loadFromFile], up to the first [setItems]. *)
Definition try_file (r : FileRead) : LoadError + list PlayItem :=
  match r with
  | FileBadJson msg => inl (Thrown msg)
  | FileJson data => nonempty_or_throw (mapped data)
  end.

(** The part of an [async] load that follows the [await]s, applied to the
    state [a] the response finds. The function was called in an earlier
    render and reads [defaultSeconds] from that render's closure:
    [called_default] is that value, not the default of [a]. The write of
    the URL to the [rosco-url] slot is left out. *)
Definition loadFromUrl (r : Fetched) (silent : bool) (called_default : Z)
    (a : App) : App :=
  match try_url r with
  | inr m =>
      let a' := a |> setItems m |> setIdx 0 |> setFinished false
                  |> setRunning false |> setSeconds called_default in
      if silent then a' else a' |> setSnack BankLoaded
  | inl e =>
      a |> setItems fallback_bank |> setIdx 0 |> setFinished false
        |> setRunning false |> setSeconds called_default
        |> setSnack (UrlLoadFailed e)
  end.

(** As for [loadFromUrl]: [called_default] is the default of the render in
    which the file was chosen. *)
Definition loadFromFile (r : FileRead) (called_default : Z) (a : App) : App :=
  match try_file r with
  | inr m =>
      a |> setItems m |> setIdx 0 |> setFinished false
        |> setRunning false |> setSeconds called_default
        |> setSnack BankLoadedFromFile
  | inl e => a |> setSnack (FileLoadFailed e)
  end.

End Loading.

(** ** Game logic *)

(** [items[j]]: undefined below zero and from the length on. *)
Definition item_at (l : list PlayItem) (j : Z) : option PlayItem :=
  if j <? 0 then None else l !! Z.to_nat j.

Definition open_status (s : Status) : bool :=
  match s with
  | Pendiente | Pasada => true
  | Bien | Mal => false
  end.

(** The [for] loop of [nextIndex] with [c] iterations left. Reading
    [.status] of an undefined element throws: [None]. *)
Fixpoint nextIndex_loop (l : list PlayItem) (from j : Z) (c : nat) : option Z :=
  match c with
  | O => Some from
  | S c' =>
      match item_at l j with
      | None => None
      | Some it =>
          if open_status (status it) then Some j
          else nextIndex_loop l from (Z.rem (j + 1) (Z.of_nat (length l))) c'
      end
  end.

Definition nextIndex (l : list PlayItem) (from : Z) : option Z :=
  match l with
  | [] => Some 0
  | _ :: _ =>
      nextIndex_loop l from (Z.rem (from + 1) (Z.of_nat (length l))) (length l)
  end.

(** [mark]. With [idx] outside the array the source writes
    [{ status }] past the end, which is not a [PlayItem[]] any more: the
    model stops there ([None]). It never happens in a state the owner can
    reach (see [step_total]). *)
Definition mark (st : Status) (a : App) : option App :=
  if negb (is_owner (role a)) || finished a then Some a
  else match items a with
  | [] => Some a
  | _ :: _ =>
      match item_at (items a) (idx a) with
      | None => None
      | Some cur =>
          let updated := <[Z.to_nat (idx a) := with_status cur st]> (items a) in
          match nextIndex (items a) (idx a) with
          | None => None
          | Some j => Some (a |> setItems updated |> setIdx j)
          end
      end
  end.

Definition start (a : App) : App :=
  if is_owner (role a) then a |> setRunning true |> setFinished false else a.

Definition pause (a : App) : App :=
  if is_owner (role a) then a |> setRunning false else a.

Definition reset (a : App) : App :=
  if negb (is_owner (role a)) then a
  else a |> setItems (map (fun x => with_status x Pendiente) (items a))
         |> setIdx 0 |> setSeconds (defaultSeconds a)
         |> setFinished false |> setRunning false.

Definition clamp (n min max : Z) : Z := Z.min max (Z.max min n).

Definition setTimer (newSeconds : Z) (a : App) : App :=
  if negb (is_owner (role a)) then a
  else a |> setSeconds (clamp newSeconds 0 (60 * 60)).

(** The sum is a sum of doubles; rounding keeps the order and leaves 0 and
    3600 where they are, so the clamp of the rounded sum is the clamp of
    the sum. *)
Definition adjustTimer (delta : Z) (a : App) : App :=
  setTimer (seconds a + delta) a.

(** [applyTimerInput], given what [parseMmSs(timerInput)] returned; the
    write to the [rosco-default-seconds] slot is left out. *)
Definition applyTimerInput (parsed : option Z) (a : App) : App :=
  match parsed with
  | None => a |> setSnack InvalidTimerFormat
  | Some p => a |> setTimer p |> setDefaultSeconds p
  end.

(** [s - 1] in the arithmetic of doubles, for a positive whole number [s]
    that a double holds. Up to [2^53] every whole number is a double and
    the difference is exact. From there up to [2^54] the doubles are the
    even numbers: [s - 1] lies half way between [s - 2] and [s] and goes
    to the one whose significand is even, [s] when [s] is a multiple of
    4. From [2^54] on, [s] is the double nearest to [s - 1]. *)
Definition minus_one (s : Z) : Z :=
  if s <=? 2 ^ 53 then s - 1
  else if s <? 2 ^ 54 then (if s mod 4 =? 0 then s else s - 2)
  else s.

(** One firing of the countdown interval. The interval exists only while
    the owner's game runs and is not finished. *)
Definition tick (a : App) : App :=
  if negb (is_owner (role a)) || negb (running a) || finished a then a
  else a |> setSeconds (if seconds a >? 0 then minus_one (seconds a) else 0).

(** The condition of the expiry effect and its two state updates. *)
Definition expired (a : App) : bool :=
  (seconds a =? 0) && running a && is_owner (role a).

Definition expire (a : App) : App :=
  if expired a then a |> setRunning false |> setFinished true else a.

(** ** What the owner can do *)

Inductive Op :=
| OpStart
| OpPause
| OpReset
| OpMark (st : Status)
| OpAdjustTimer (delta : Z)
| OpApplyTimerInput (parsed : option Z)
| OpLoadUrl (r : Fetched) (silent : bool) (called_default : Z)
| OpLoadFile (r : FileRead) (called_default : Z)
| OpTick
| OpExpire
| OpSubscribed
| OpClosed.

Section Steps.
Context {rt : Runtime}.

Definition step (o : Op) (a : App) : option App :=
  match o with
  | OpStart => Some (start a)
  | OpPause => Some (pause a)
  | OpReset => Some (reset a)
  | OpMark st => mark st a
  | OpAdjustTimer d => Some (adjustTimer d a)
  | OpApplyTimerInput p => Some (applyTimerInput p a)
  | OpLoadUrl r silent d => Some (loadFromUrl r silent d a)
  | OpLoadFile r d => Some (loadFromFile r d a)
  | OpTick => Some (tick a)
  | OpExpire => Some (expire a)
  | OpSubscribed => Some (a |> setJoined true)
  | OpClosed => Some (a |> setJoined false)
  end.

(** The states of an owner session: the first render and whatever the
    operations lead to. The response of a load may come with any default
    as the one read at the call, which leaves no state of the session
    out. *)
Inductive reachable (room : string) (d0 : Z) : App -> Prop :=
| reach_initial : reachable room d0 (initial Owner room d0)
| reach_step o a a' :
    reachable room d0 a -> step o a = Some a' -> reachable room d0 a'.

End Steps.

(** ** Outbound path: the broadcast functions *)

(** What lives outside React state: the module-level [bc] (present when the
    browser has [BroadcastChannel]), [roomChannelRef.current] (the channel,
    known by the name it was opened with) and [lastSentRef.current]. *)
Record Handles := mkHandles {
  bc : bool;
  roomChannelRef : option string;
  lastSentRef : Z
}.

Definition setLastSent (now : Z) (h : Handles) : Handles :=
  mkHandles (bc h) (roomChannelRef h) now.

(** The two clocks the broadcast functions read. *)
Record Clock := mkClock {
  performance_now : Z;
  Date_now : Z
}.

Inductive Send :=
| BcPost (message : JsValue)                   (* [bc.postMessage(message)] *)
| StorageSet (key : string) (object : JsValue) (* [setItem(key, JSON.stringify(object))] *)
| ChannelSend (channel : string) (message : JsValue).

Definition js_of_item (p : PlayItem) : JsValue :=
  JObj [("letter", JStr (letter (base p)));
        ("rule", JStr (rule_str (rule (base p))));
        ("prompt", JStr (prompt (base p)));
        ("answer", JStr (answer (base p)));
        ("status", JStr (status_str (status p)))].

(** [{ items, idx, seconds, running, finished }] *)
Definition state_fields (a : App) : list (string * JsValue) :=
  [("items", JArr (map js_of_item (items a)));
   ("idx", JNum (idx a));
   ("seconds", JNum (seconds a));
   ("running", JBool (running a));
   ("finished", JBool (finished a))].

Definition local_payload (a : App) : list (string * JsValue) :=
  ("type", JStr "state") :: state_fields a ++ [("roomId", JStr (roomId a))].

Definition broadcastLocal (a : App) (h : Handles) (c : Clock) : list Send :=
  (if bc h then [BcPost (JObj (local_payload a))] else [])
  ++ [StorageSet "rosco-sync" (JObj (local_payload a ++ [("ts", JNum (Date_now c))]))].

Definition realtime_message (a : App) : JsValue :=
  JObj [("type", JStr "broadcast");
        ("event", JStr "state");
        ("payload", JObj (state_fields a))].

Definition broadcastRealtime (a : App) (h : Handles) (c : Clock)
  : Handles * list Send :=
  match roomChannelRef h with
  | None => (h, [])
  | Some channel =>
      if negb (joined a) then (h, [])
      else if performance_now c - lastSentRef h <? 120 then (h, [])
      else (setLastSent (performance_now c) h,
            [ChannelSend channel (realtime_message a)])
  end.

Definition broadcastAll (a : App) (h : Handles) (c : Clock)
  : Handles * list Send :=
  if negb (is_owner (role a)) then (h, [])
  else
    let sent := broadcastLocal a h c in
    let '(h', net) := broadcastRealtime a h c in
    (h', sent ++ net).

(** The effect on [[items, idx, seconds, running, finished, joined, role]]:
    run after a render in which one of them changed, with that render's
    values. *)
Definition publish_effect (a : App) (h : Handles) (c : Clock)
  : Handles * list Send :=
  if is_owner (role a) && joined a then broadcastAll a h c else (h, []).

(** The effect on [[seconds, running, role]]: the state updates are queued
    for the next render, [broadcastAll] runs with this render's values. *)
Definition expiry_effect (a : App) (h : Handles) (c : Clock)
  : App * Handles * list Send :=
  if expired a then
    let '(h', sent) := broadcastAll a h c in
    (a |> setRunning false |> setFinished true, h', sent)
  else (a, h, []).

(** The effects of one render whose [seconds] or [running] changed, in
    the order the component declares them. The result is the state of the
    next render. *)
Definition run_effects (a : App) (h : Handles) (c1 c2 : Clock)
  : App * Handles * list Send :=
  let '(a', h1, sent1) := expiry_effect a h c1 in
  let '(h2, sent2) := publish_effect a h1 c2 in
  (a', h2, sent1 ++ sent2).

(** From the render in which the countdown is found at zero to the last
    render it causes: the effects of that render and, when they changed the
    state, the effects of the render that follows. *)
Definition expiry_cascade (a : App) (h : Handles) (c1 c2 c3 c4 : Clock)
  : App * Handles * list Send :=
  let '(a1, h1, sent1) := run_effects a h c1 c2 in
  if expired a then
    let '(a2, h2, sent2) := run_effects a1 h1 c3 c4 in
    (a2, h2, sent1 ++ sent2)
  else (a1, h1, sent1).

(** One render after a state change: the state it shows, whether
    [seconds] or [running] is among the cells that changed (the expiry
    effect then runs, before the publish effect, which runs in any case),
    and the clocks as the two effects read them. *)
Record Render := mkRender {
  shown : App;
  timer_changed : bool;
  expiry_clock : Clock;
  publish_clock : Clock
}.

(** What the effects of one such render send. *)
Definition effects_of (rd : Render) (h : Handles) : Handles * list Send :=
  let '(_, h1, sent1) :=
    if timer_changed rd then expiry_effect (shown rd) h (expiry_clock rd)
    else (shown rd, h, []) in
  let '(h2, sent2) := publish_effect (shown rd) h1 (publish_clock rd) in
  (h2, sent1 ++ sent2).

(** A run of renders, each after a state change. *)
Fixpoint effects_all (renders : list Render) (h : Handles)
  : Handles * list Send :=
  match renders with
  | [] => (h, [])
  | rd :: rest =>
      let '(h1, sent1) := effects_of rd h in
      let '(h2, sent2) := effects_all rest h1 in
      (h2, sent1 ++ sent2)
  end.

(** The renders in which the expiry effect calls [broadcastAll]. *)
Definition expirations (renders : list Render) : nat :=
  length (List.filter (fun rd => timer_changed rd && expired (shown rd)) renders).

(** The times the effects of a render read on the page's clock. *)
Definition clock_reads (rd : Render) : list Z :=
  [performance_now (expiry_clock rd); performance_now (publish_clock rd)].

(** The calls of [broadcastAll] the effects of a render make, each with
    the state it sends and the clock it reads. *)
Definition calls_of (rd : Render) : list (App * Clock) :=
  (if timer_changed rd && expired (shown rd)
   then [(shown rd, expiry_clock rd)] else [])
  ++ (if is_owner (role (shown rd)) && joined (shown rd)
      then [(shown rd, publish_clock rd)] else []).

Fixpoint broadcast_calls (calls : list (App * Clock)) (h : Handles)
  : Handles * list Send :=
  match calls with
  | [] => (h, [])
  | (a, c) :: rest =>
      let '(h1, sent1) := broadcastAll a h c in
      let '(h2, sent2) := broadcast_calls rest h1 in
      (h2, sent1 ++ sent2)
  end.

Definition is_bc_post (s : Send) : bool :=
  match s with BcPost _ => true | _ => false end.
Definition is_storage_set (s : Send) : bool :=
  match s with StorageSet _ _ => true | _ => false end.
Definition is_channel_send (s : Send) : bool :=
  match s with ChannelSend _ _ => true | _ => false end.

Definition count (p : Send -> bool) (l : list Send) : nat :=
  length (List.filter p l).

(** The message a send carries. *)
Definition carried (s : Send) : JsValue :=
  match s with
  | BcPost m => m
  | StorageSet _ o => o
  | ChannelSend _ m => prop m "payload"
  end.

(** ** Inbound path: the player's handlers *)

Module Observer.

(** The five replicated cells in a player session. Each holds whatever the
    last applied message carried. *)
Record Replica := mkReplica {
  items : JsValue;
  idx : JsValue;
  seconds : JsValue;
  running : JsValue;
  finished : JsValue
}.

Definition setItems (v : JsValue) (r : Replica) : Replica :=
  mkReplica v (idx r) (seconds r) (running r) (finished r).
Definition setIdx (v : JsValue) (r : Replica) : Replica :=
  mkReplica (items r) v (seconds r) (running r) (finished r).
Definition setSeconds (v : JsValue) (r : Replica) : Replica :=
  mkReplica (items r) (idx r) v (running r) (finished r).
Definition setRunning (v : JsValue) (r : Replica) : Replica :=
  mkReplica (items r) (idx r) (seconds r) v (finished r).
Definition setFinished (v : JsValue) (r : Replica) : Replica :=
  mkReplica (items r) (idx r) (seconds r) (running r) v.

(** The five [setX(m.x)] calls every handler ends with. *)
Definition apply_state (m : JsValue) (r : Replica) : Replica :=
  r |> setItems (prop m "items") |> setIdx (prop m "idx")
    |> setSeconds (prop m "seconds") |> setRunning (prop m "running")
    |> setFinished (prop m "finished").

(** The listener on the [BroadcastChannel]; [m] is [e.data]. *)
Definition onMsg (roomId : string) (m : JsValue) (r : Replica) : Replica :=
  if negb (truthy m) || negb (is_str (prop m "type") "state") then r
  else if truthy (prop m "roomId") && negb (is_str (prop m "roomId") roomId) then r
  else apply_state m r.

Record StorageEvent := mkStorageEvent {
  key : option string;
  newValue : option string
}.

Definition key_is (k : option string) (s : string) : bool :=
  match k with
  | Some k' => (k' =? s)%string
  | None => false
  end.

Section WithRuntime.
Context {rt : Runtime}.

(** The listener on the window's [storage] event. A syntax error of
    [JSON.parse], and the type error of reading [.type] of [null], end in
    the empty [catch]. *)
Definition onStorage (roomId : string) (e : StorageEvent) (r : Replica) : Replica :=
  match newValue e with
  | Some text =>
      if key_is (key e) "rosco-sync" && negb (text =? "")%string then
        match JSON_parse text with
        | None => r
        | Some m =>
            if nullish m then r
            else if is_str (prop m "type") "state"
                    && (negb (truthy (prop m "roomId"))
                        || is_str (prop m "roomId") roomId)
            then apply_state m r
            else r
        end
      else r
  | None => r
  end.

End WithRuntime.

(** The listener on the realtime channel's [state] broadcasts. *)
Definition onBroadcast (role : Role) (msg : JsValue) (r : Replica) : Replica :=
  let m := prop msg "payload" in
  if negb (truthy m) then r
  else match role with
       | Player => apply_state m r
       | Owner => r
       end.

(** A player's first render. *)
Definition initial (d0 : Z) : Replica :=
  mkReplica (JArr []) (JNum 0) (JNum d0) (JBool false) (JBool false).

(** The replica that holds exactly the five fields of [m]. *)
Definition fields_of (m : JsValue) : Replica :=
  mkReplica (prop m "items") (prop m "idx") (prop m "seconds")
            (prop m "running") (prop m "finished").

End Observer.

(** The subscription effect: [supabase.channel(roomId, ...)] is stored in
    the ref and [joined] starts false; nothing happens without a client. *)
Definition subscribe_effect (supabase : bool) (a : App) (h : Handles)
  : App * Handles :=
  if supabase
  then (a |> setJoined false, mkHandles (bc h) (Some (roomId a)) (lastSentRef h))
  else (a, h).

(** ** A runtime to run the examples on

    Upper-casing of the ASCII letters, [String(v)] of the values JSON can
    hold, and a [JSON.parse] that knows the texts of a few documents. *)

Module Sample.

Definition upper_ascii (c : ascii) : ascii :=
  let n := nat_of_ascii c in
  if ((97 <=? n) && (n <=? 122))%nat then ascii_of_nat (n - 32) else c.

Fixpoint upper (s : string) : string :=
  match s with
  | EmptyString => EmptyString
  | String c rest => String (upper_ascii c) (upper rest)
  end.

Definition decimal (n : Z) : string := NilZero.string_of_int (Z.to_int n).

Fixpoint to_string (v : JsValue) : string :=
  match v with
  | JUndefined => "undefined"
  | JNull => "null"
  | JBool b => if b then "true" else "false"
  | JNum n => decimal n
  | JStr s => s
  | JArr l =>
      (fix join (l : list JsValue) : string :=
         match l with
         | [] => ""
         | x :: rest =>
             ((if nullish x then "" else to_string x)
              ++ match rest with [] => "" | _ :: _ => "," ++ join rest end)%string
         end) l
  | JObj _ => "[object Object]"
  end.

Definition quote (s : string) : string :=
  (String "034"%char s ++ String "034"%char "")%string.

(** The JSON text of a value whose strings need no escape. *)
Fixpoint json_text (v : JsValue) : string :=
  match v with
  | JUndefined | JNull => "null"
  | JBool b => if b then "true" else "false"
  | JNum n => decimal n
  | JStr s => quote s
  | JArr l =>
      ("[" ++ (fix elems (l : list JsValue) : string :=
                 match l with
                 | [] => ""
                 | x :: rest =>
                     (json_text x
                      ++ match rest with [] => "" | _ :: _ => "," ++ elems rest end)%string
                 end) l ++ "]")%string
  | JObj fs =>
      ("{" ++ (fix members (fs : list (string * JsValue)) : string :=
                 match fs with
                 | [] => ""
                 | (k, x) :: rest =>
                     (quote k ++ ":" ++ json_text x
                      ++ match rest with [] => "" | _ :: _ => "," ++ members rest end)%string
                 end) fs ++ "}")%string
  end.

Definition question (l r p ans : string) : JsValue :=
  JObj [("letter", JStr l); ("rule", JStr r); ("prompt", JStr p);
        ("answer", JStr ans)].

(** A bank file: two good records around one without an answer, and one
    whose rule is not one of the three. *)
Definition bank : JsValue :=
  JArr [question "a" "empieza" "Fruta roja o verde" "arandano";
        JObj [("letter", JStr "b"); ("rule", JStr "contiene");
              ("prompt", JStr "Sin respuesta"); ("answer", JStr "")];
        question "c" "rima" "Animal que ladra" "can"].

Definition played (l : string) (r : Rule) (p ans : string) (st : Status) : PlayItem :=
  {| base := {| letter := l; rule := r; prompt := p; answer := ans |};
     status := st |}.

Definition two_items : list PlayItem :=
  [played "A" Empieza "Fruta roja o verde" "arandano" Pendiente;
   played "C" Empieza "Animal que ladra" "can" Pendiente].

(** An owner of room [sala1], joined or not, with the bank above. *)
Definition owner_app (secs : Z) (run joined_ : bool) : App :=
  mkApp Owner "sala1" two_items 0 run false None 180 secs joined_.

Definition handles : Handles := mkHandles true (Some "sala1") 0.

Definition at_ms (t : Z) : Clock := mkClock t (1700000000000 + t).

(** The local envelope of the owner above, and the same one as sent by an
    owner of room [sala2]. *)
Definition envelope (room : string) : JsValue :=
  JObj (local_payload
          (mkApp Owner room two_items 1 true false None 180 42 true)
        ++ [("ts", JNum 1700000000000)]).

Definition untagged : JsValue :=
  JObj (("type", JStr "state")
        :: state_fields (mkApp Owner "sala2" two_items 1 true false None 180 42 true)).

Definition documents : list JsValue :=
  [envelope "sala1"; envelope "sala2"; untagged; JNull].

Definition parse (text : string) : option JsValue :=
  List.find (fun v => (json_text v =? text)%string) documents.

(** The storage event a write of [v] into the [rosco-sync] slot fires in
    the other tabs. *)
Definition storage_event (v : JsValue) : Observer.StorageEvent :=
  Observer.mkStorageEvent (Some "rosco-sync") (Some (json_text v)).

Definition realtime_event (v : JsValue) : JsValue :=
  JObj [("type", JStr "broadcast"); ("event", JStr "state"); ("payload", v)].

Definition replica : Observer.Replica := Observer.initial 180.

(** The second question is the last one not answered yet. *)
Definition last_question : App :=
  mkApp Owner "sala1"
        [played "A" Empieza "Fruta roja o verde" "arandano" Bien;
         played "C" Empieza "Animal que ladra" "can" Pendiente]
        1 true false None 180 120 true.

Definition all_answered : App :=
  mkApp Owner "sala1"
        [played "A" Empieza "Fruta roja o verde" "arandano" Bien;
         played "C" Empieza "Animal que ladra" "can" Bien]
        1 true false None 180 120 true.

(** The countdown has just reached zero; the channel has not joined. *)
Definition countdown_over : App :=
  mkApp Owner "sala1" two_items 0 true false None 180 0 false.

(** After loading the bank from a file, starting, and a right answer. *)
Definition first_answered : App :=
  mkApp Owner "sala1"
        [played "A" Empieza "Fruta roja o verde" "arandano" Bien;
         played "C" Empieza "Animal que ladra" "can" Pendiente]
        1 true false (Some BankLoadedFromFile) 180 180 false.

Definition runtime : Runtime :=
  {| JSON_parse := parse;
     toUpperCase := upper;
     String_ := to_string;
     String_of_string := fun s => eq_refl;
     JSON_parse_empty := eq_refl |}.

End Sample.

(** ** Scores ([score], [wrong] and the count of the result panel) *)

Definition has_status (st : Status) (p : PlayItem) : bool :=
  match status p, st with
  | Pendiente, Pendiente | Bien, Bien | Mal, Mal | Pasada, Pasada => true
  | _, _ => false
  end.

(** [items.filter(i => i.status === st).length] *)
Definition count_status (st : Status) (l : list PlayItem) : nat :=
  length (List.filter (has_status st) l).

Definition score (a : App) : nat := count_status Bien (items a).
Definition wrong (a : App) : nat := count_status Mal (items a).
Definition passed (a : App) : nat := count_status Pasada (items a).

(** ** The session's parameters and the player link *)

(** The query of the page's URL, as a [URLSearchParams] holds it: pairs in
    order; [get] reads the first pair of a name, [set] overwrites it and
    removes the later ones, or appends. *)
Fixpoint params_get (name : string) (ps : list (string * string)) : option string :=
  match ps with
  | [] => None
  | (k, v) :: rest => if (k =? name)%string then Some v else params_get name rest
  end.

Definition params_delete (name : string) (ps : list (string * string))
  : list (string * string) :=
  List.filter (fun kv => negb (fst kv =? name)%string) ps.

Fixpoint params_set (name value : string) (ps : list (string * string))
  : list (string * string) :=
  match ps with
  | [] => [(name, value)]
  | (k, v) :: rest =>
      if (k =? name)%string then (name, value) :: params_delete name rest
      else (k, v) :: params_set name value rest
  end.

(** How many pairs of a name the query holds ([getAll(name).length]). *)
Definition params_count (name : string) (ps : list (string * string)) : nat :=
  length (List.filter (fun kv => (fst kv =? name)%string) ps).

(** [roleParam === "player" || roleParam === "owner" ? roleParam : "owner"] *)
Definition role_of_view (view : option string) : Role :=
  match view with
  | Some v => if (v =? "player")%string then Player else Owner
  | None => Owner
  end.

(** [roomFromUrl || nanoid(6)], given what [nanoid(6)] returns. *)
Definition room_of (roomFromUrl : option string) (fresh : string) : string :=
  match roomFromUrl with
  | Some r => if (r =? "")%string then fresh else r
  | None => fresh
  end.

(** The first render of a page opened with the query [ps]. *)
Definition session (ps : list (string * string)) (fresh : string) (d0 : Z) : App :=
  initial (role_of_view (params_get "view" ps))
          (room_of (params_get "room" ps) fresh) d0.

(** The query of the link [openPlayer] opens and [copyPlayerLink] copies;
    the page it opens reads the pairs the link was written from. *)
Definition player_link (a : App) (ps : list (string * string))
  : list (string * string) :=
  params_set "room" (roomId a) (params_set "view" "player" ps).

(** The refs of the first render: no channel yet, [useRef(0)]. *)
Definition initial_handles (has_bc : bool) : Handles := mkHandles has_bc None 0.

(** What a player shows once it has applied a message of the owner [a]. *)
Definition snapshot (a : App) : Observer.Replica :=
  Observer.mkReplica (JArr (map js_of_item (items a))) (JNum (idx a))
                     (JNum (seconds a)) (JBool (running a)) (JBool (finished a)).

(** ** The earlier version of the component

    The file without the realtime channel: one [broadcast], sent on every
    change, and listeners that do not look at a room. It uses the same
    BroadcastChannel name and the same storage slot. *)

Module Legacy.

Definition payload (a : App) : list (string * JsValue) :=
  ("type", JStr "state") :: state_fields a.

Definition broadcast (a : App) (h : Handles) (c : Clock) : list Send :=
  (if bc h then [BcPost (JObj (payload a))] else [])
  ++ [StorageSet "rosco-sync" (JObj (payload a ++ [("ts", JNum (Date_now c))]))].

(** [useEffect(() => { if (role === 'owner') broadcast(); }, [...])] *)
Definition publish_effect (a : App) (h : Handles) (c : Clock) : list Send :=
  if is_owner (role a) then broadcast a h c else [].

Definition onMsg (m : JsValue) (r : Observer.Replica) : Observer.Replica :=
  if negb (truthy m) || negb (is_str (prop m "type") "state") then r
  else Observer.apply_state m r.

Section WithRuntime.
Context {rt : Runtime}.

Definition onStorage (e : Observer.StorageEvent) (r : Observer.Replica)
  : Observer.Replica :=
  match Observer.newValue e with
  | Some text =>
      if Observer.key_is (Observer.key e) "rosco-sync" && negb (text =? "")%string then
        match JSON_parse text with
        | None => r
        | Some m =>
            if nullish m then r
            else if is_str (prop m "type") "state" then Observer.apply_state m r
            else r
        end
      else r
  | None => r
  end.

End WithRuntime.

End Legacy.

(** ** The JSON proxy ([api/fetch-json.ts]) *)

Module Proxy.

(** [req.query.url]: missing, given once, or given several times. *)
Inductive Query :=
| QAbsent
| QOne (value : string)
| QMany (values : list string).

(** [String(req.query.url || '')]; an array is joined with commas. *)
Definition raw_url (q : Query) : string :=
  match q with
  | QAbsent => ""
  | QOne s => s
  | QMany l => String.concat "," l
  end.

Definition lower_ascii (c : ascii) : ascii :=
  let n := nat_of_ascii c in
  if ((65 <=? n) && (n <=? 90))%nat then ascii_of_nat (n + 32) else c.

Fixpoint lower (s : string) : string :=
  match s with
  | EmptyString => EmptyString
  | String c rest => String (lower_ascii c) (lower rest)
  end.

(** [/^https?:\/\//i.test(raw)] *)
Definition is_http (raw : string) : bool :=
  String.prefix "http://" (lower raw) || String.prefix "https://" (lower raw).

(** [hay.includes(needle)] *)
Fixpoint includes (needle hay : string) : bool :=
  String.prefix needle hay
  || match hay with
     | EmptyString => false
     | String _ rest => includes needle rest
     end.

(** What [fetch(raw)] comes to: a rejection, or a response with its
    status, its [content-type] header and its body text ([None] when
    reading the body fails). *)
Inductive Upstream :=
| UpRejected (message : string)
| UpResponse (status : Z) (content_type : option string) (text : option string).

(** [r.ok] *)
Definition ok_status (status : Z) : bool := (200 <=? status) && (status <=? 299).

Inductive Exception :=
| FetchFailed (message : string)
| BodyUnreadable
| BodyNotJson.

Inductive Body :=
| Data (data : JsValue)
| ErrMissingUrl                 (* [{ error: 'Falta ?url=' }] *)
| ErrInvalidUrl                 (* [{ error: 'URL invalida ...' }] *)
| ErrHttp (status : Z)          (* [{ error: `HTTP ${r.status}` }] *)
| ErrNotJson                    (* [{ error: 'El recurso no es JSON' }] *)
| ErrThrown (e : Exception).    (* [{ error: e?.message ?? 'Error' }] *)

Record Reply := mkReply {
  code : Z;
  allow_origin : bool;          (* [Access-Control-Allow-Origin: *] was set *)
  body : Body
}.

Section WithRuntime.
Context {rt : Runtime}.

(** [JSON.parse(await r.text())] and [await r.json()]. *)
Definition read_json (text : option string) : Exception + JsValue :=
  match text with
  | None => inl BodyUnreadable
  | Some t =>
      match JSON_parse t with
      | Some data => inr data
      | None => inl BodyNotJson
      end
  end.

Definition handler (fetch : string -> Upstream) (q : Query) : Reply :=
  let raw := raw_url q in
  if (raw =? "")%string then mkReply 400 false ErrMissingUrl
  else if negb (is_http raw) then mkReply 400 false ErrInvalidUrl
  else match fetch raw with
  | UpRejected msg => mkReply 500 false (ErrThrown (FetchFailed msg))
  | UpResponse status content_type text =>
      if negb (ok_status status) then mkReply status false (ErrHttp status)
      else
        let ct := match content_type with Some v => v | None => "" end in
        if negb (includes "application/json" ct) then
          match read_json text with
          | inr data => mkReply 200 true (Data data)
          | inl _ => mkReply 415 false ErrNotJson
          end
        else
          match read_json text with
          | inr data => mkReply 200 true (Data data)
          | inl e => mkReply 500 false (ErrThrown e)
          end
  end.

End WithRuntime.


End Proxy.

(** ** More inputs for the examples *)

Module Demo.

(** An upstream that serves one document as plain text and is down for
    every other address. *)
Definition upstream (u : string) : Proxy.Upstream :=
  if (u =? "https://example.org/rosco.json")%string
  then Proxy.UpResponse 200 (Some "text/plain")
                        (Some (Sample.json_text Sample.untagged))
  else Proxy.UpRejected "getaddrinfo ENOTFOUND".

(** The same, but answering on addresses the proxy must not reach. *)
Definition open_upstream (u : string) : Proxy.Upstream :=
  if Proxy.is_http u then upstream u
  else Proxy.UpResponse 200 (Some "application/json") (Some "null").


(** A browser without BroadcastChannel. *)
Definition handles_without_bc : Handles := mkHandles false (Some "sala1") 0.

(** The query of an owner's page opened on a bank. *)
Definition owner_query : list (string * string) :=
  [("json", "https://example.org/rosco.json"); ("view", "owner")].

End Demo.

(** ** The predicates the properties are stated with *)

(** [isFinished] implies not [isRunning]. *)
Definition finished_stops (a : App) : Prop :=
  finished a = true -> running a = false.

(** [currentIndex] is an index of [items] when there are items. *)
Definition valid_index (a : App) : Prop :=
  items a <> [] -> 0 <= idx a < Z.of_nat (length (items a)).

(** The item at [j] is pending or skipped. *)
Definition is_open (l : list PlayItem) (j : Z) : bool :=
  match item_at l j with
  | Some it => open_status (status it)
  | None => false
  end.




Section Contract.
Context {rt : Runtime}.



End Contract.

(** While an item is pending or skipped, the current one is. *)
Definition on_open_item (a : App) : Prop :=
  (exists j, is_open (items a) j = true) -> is_open (items a) (idx a) = true.

(** * Properties *)

(** ** JavaScript values *)

Lemma truthy_not_nullish v : truthy v = true -> nullish v = false.
Proof. by destruct v. Qed.

Lemma truthy_str s : truthy (JStr s) = true <-> s <> "".
Proof.
  cbn. rewrite negb_true_iff. split.
  - intros H ->. discriminate.
  - intros H. destruct (String.eqb_spec s ""); congruence.
Qed.

Lemma is_str_true v s : is_str v s = true <-> v = JStr s.
Proof.
  destruct v; cbn; try (split; [discriminate | congruence]).
  rewrite String.eqb_eq. split; congruence.
Qed.

Lemma is_str_refl s : is_str (JStr s) s = true.
Proof. by apply is_str_true. Qed.

Lemma is_str_other s t : s <> t -> is_str (JStr s) t = false.
Proof.
  intros H. destruct (is_str (JStr s) t) eqn:E; [|done].
  apply is_str_true in E. congruence.
Qed.

(** Only an object has a field that is a string. *)
Lemma prop_str_object m k s : prop m k = JStr s -> truthy m = true /\ nullish m = false.
Proof. by destruct m. Qed.

(** ** The player's handlers *)

Section ObserverFacts.
Context {rt : Runtime}.
Import Observer.

Lemma apply_state_fields m r : apply_state m r = fields_of m.
Proof. reflexivity. Qed.

(** A state message whose room tag is this room's, or is falsy, passes the
    filter of [onMsg]. *)
Lemma onMsg_applies room m r :
  prop m "type" = JStr "state" ->
  truthy (prop m "roomId") = false \/ prop m "roomId" = JStr room ->
  onMsg room m r = fields_of m.
Proof.
  intros Ht Hroom. unfold onMsg.
  destruct (prop_str_object _ _ _ Ht) as [-> _]. rewrite Ht, is_str_refl. cbn.
  destruct Hroom as [-> | ->]; [done|].
  by rewrite is_str_refl, andb_false_r.
Qed.

(** A message tagged with another room stops at the filter of [onMsg]. *)
Lemma onMsg_discards room other m r :
  prop m "roomId" = JStr other -> other <> "" -> other <> room ->
  onMsg room m r = r.
Proof.
  intros Hroom Hne Hdiff. unfold onMsg.
  destruct (negb (truthy m) || negb (is_str (prop m "type") "state")); [done|].
  rewrite Hroom, is_str_other by done.
  by apply truthy_str in Hne as ->.
Qed.

Lemma onStorage_applies room e text m r :
  key e = Some "rosco-sync" -> newValue e = Some text ->
  JSON_parse text = Some m ->
  prop m "type" = JStr "state" ->
  truthy (prop m "roomId") = false \/ prop m "roomId" = JStr room ->
  onStorage room e r = fields_of m.
Proof.
  intros Hk Hv Hp Ht Hroom. unfold onStorage. rewrite Hv, Hk. cbn.
  destruct (String.eqb_spec text "") as [-> | _].
  { rewrite JSON_parse_empty in Hp. discriminate. }
  cbn. rewrite Hp.
  destruct (prop_str_object _ _ _ Ht) as [_ ->]. rewrite Ht, is_str_refl. cbn.
  destruct Hroom as [-> | ->]; [done|].
  by rewrite is_str_refl, orb_true_r.
Qed.

Lemma onStorage_discards room other e text m r :
  newValue e = Some text -> JSON_parse text = Some m ->
  prop m "roomId" = JStr other -> other <> "" -> other <> room ->
  onStorage room e r = r.
Proof.
  intros Hv Hp Hroom Hne Hdiff. unfold onStorage. rewrite Hv.
  destruct (key_is (key e) "rosco-sync" && negb (text =? "")%string); [|done].
  rewrite Hp. destruct (nullish m); [done|].
  rewrite Hroom, is_str_other by done.
  apply truthy_str in Hne as ->. by rewrite andb_false_r.
Qed.

Lemma onBroadcast_applies msg r :
  truthy (prop msg "payload") = true ->
  onBroadcast Player msg r = fields_of (prop msg "payload").
Proof. intros H. unfold onBroadcast. by rewrite H. Qed.

(** C1. Room isolation on the two local paths: a player of room [A]
    applies all five fields of a state envelope tagged [A] and leaves its
    replica untouched on an envelope tagged with another non-empty room
    [B], whether the envelope arrives as a BroadcastChannel message or as
    the text of a storage event. *)
Theorem room_isolation (A B : string) (E1 E2 : JsValue) (r : Replica) :
  A <> "" -> B <> "" -> B <> A ->
  prop E1 "type" = JStr "state" ->
  prop E1 "roomId" = JStr A ->
  prop E2 "roomId" = JStr B ->
  (onMsg A E1 r = fields_of E1 /\ onMsg A E2 r = r)
  /\ (forall e1 e2 text1 text2,
        key e1 = Some "rosco-sync" ->
        newValue e1 = Some text1 -> JSON_parse text1 = Some E1 ->
        newValue e2 = Some text2 -> JSON_parse text2 = Some E2 ->
        onStorage A e1 r = fields_of E1 /\ onStorage A e2 r = r).
Proof.
  intros HA HB Hdiff Ht H1 H2. split; [split|].
  - apply onMsg_applies; auto.
  - by apply onMsg_discards with B.
  - intros e1 e2 text1 text2 Hk Hv1 Hp1 Hv2 Hp2. split.
    + eapply onStorage_applies; eauto.
    + by eapply onStorage_discards with (other := B).
Qed.

(** C2. Wholesale replacement: once a handler lets a message through,
    the replica is the message's five fields and nothing of what it held
    before. On the BroadcastChannel and storage paths the message is a
    state envelope [E] that passes the room filter; on the realtime path
    it is the payload [P] of a broadcast, which the handler accepts as
    soon as it is truthy, with no type and no room tag asked of it. *)
Theorem wholesale_replacement (room : string) (E P : JsValue) (r : Replica) :
  prop E "type" = JStr "state" ->
  truthy (prop E "roomId") = false \/ prop E "roomId" = JStr room ->
  truthy P = true ->
  (onMsg room E r = fields_of E
   /\ items (onMsg room E r) = prop E "items"
   /\ idx (onMsg room E r) = prop E "idx"
   /\ seconds (onMsg room E r) = prop E "seconds"
   /\ running (onMsg room E r) = prop E "running"
   /\ finished (onMsg room E r) = prop E "finished")
  /\ (forall e text,
        key e = Some "rosco-sync" -> newValue e = Some text ->
        JSON_parse text = Some E ->
        onStorage room e r = fields_of E)
  /\ (forall msg,
        prop msg "payload" = P ->
        onBroadcast Player msg r = fields_of P
        /\ items (onBroadcast Player msg r) = prop P "items"
        /\ idx (onBroadcast Player msg r) = prop P "idx"
        /\ seconds (onBroadcast Player msg r) = prop P "seconds"
        /\ running (onBroadcast Player msg r) = prop P "running"
        /\ finished (onBroadcast Player msg r) = prop P "finished")
  /\ (forall r', onMsg room E r' = onMsg room E r)
  /\ (forall msg r', prop msg "payload" = P ->
        onBroadcast Player msg r' = onBroadcast Player msg r).
Proof.
  intros Ht Hroom HP.
  assert (Hm : forall r0, onMsg room E r0 = fields_of E)
    by (intros; by apply onMsg_applies).
  assert (Hb : forall msg r0, prop msg "payload" = P ->
                 onBroadcast Player msg r0 = fields_of P).
  { intros msg r0 Hmsg. rewrite <- Hmsg. apply onBroadcast_applies.
    by rewrite Hmsg. }
  split; [|split; [|split; [|split]]].
  - rewrite Hm. by repeat split.
  - intros e text Hk Hv Hp. eapply onStorage_applies; eauto.
  - intros msg Hmsg. rewrite (Hb msg r Hmsg). by repeat split.
  - intros r'. by rewrite !Hm.
  - intros msg r' Hmsg. by rewrite !Hb.
Qed.

(** Whatever arrives, a handler either leaves the replica as it is or
    replaces all five fields by the message's: there is no partial
    update. *)
Lemma handlers_keep_or_replace (room : string) (role : Role) (m : JsValue)
    (r : Replica) :
  (onMsg room m r = r \/ onMsg room m r = fields_of m)
  /\ (onBroadcast role m r = r
      \/ onBroadcast role m r = fields_of (prop m "payload")).
Proof.
  split.
  - unfold onMsg.
    destruct (negb (truthy m) || negb (is_str (prop m "type") "state")); [by left|].
    destruct (truthy (prop m "roomId") && negb (is_str (prop m "roomId") room));
      [by left | by right].
  - unfold onBroadcast. destruct (negb (truthy (prop m "payload"))); [by left|].
    destruct role; [by left | by right].
Qed.

(** C10. A state envelope whose [roomId] is missing, empty or otherwise
    falsy is applied by the player of any room, on both local paths. *)
Theorem untagged_envelopes_cross_rooms (room : string) (E : JsValue)
    (r : Replica) :
  prop E "type" = JStr "state" ->
  truthy (prop E "roomId") = false ->
  onMsg room E r = fields_of E
  /\ (forall e text,
        key e = Some "rosco-sync" -> newValue e = Some text ->
        JSON_parse text = Some E ->
        onStorage room e r = fields_of E).
Proof.
  intros Ht Hroom. split.
  - apply onMsg_applies; auto.
  - intros e text Hk Hv Hp. eapply onStorage_applies; eauto.
Qed.

End ObserverFacts.

Lemma room_isolation_witness :
  (Observer.onMsg "sala1" (Sample.envelope "sala1") Sample.replica
   = Observer.fields_of (Sample.envelope "sala1")
   /\ Observer.onMsg "sala1" (Sample.envelope "sala2") Sample.replica
      = Sample.replica)
  /\ (@Observer.onStorage Sample.runtime "sala1"
        (Sample.storage_event (Sample.envelope "sala1")) Sample.replica
      = Observer.fields_of (Sample.envelope "sala1")
      /\ @Observer.onStorage Sample.runtime "sala1"
           (Sample.storage_event (Sample.envelope "sala2")) Sample.replica
         = Sample.replica).
Proof.
  destruct (room_isolation (rt := Sample.runtime) "sala1" "sala2"
              (Sample.envelope "sala1") (Sample.envelope "sala2")
              Sample.replica) as [Hmsg Hstorage];
    [discriminate | discriminate | discriminate
     | reflexivity | reflexivity | reflexivity |].
  split; [exact Hmsg|].
  apply (Hstorage (Sample.storage_event (Sample.envelope "sala1"))
                  (Sample.storage_event (Sample.envelope "sala2"))
                  (Sample.json_text (Sample.envelope "sala1"))
                  (Sample.json_text (Sample.envelope "sala2")));
    reflexivity.
Defined.

Lemma wholesale_replacement_witness :
  Observer.onMsg "sala1" (Sample.envelope "sala1") Sample.replica
  = Observer.fields_of (Sample.envelope "sala1")
  /\ @Observer.onStorage Sample.runtime "sala1"
       (Sample.storage_event (Sample.envelope "sala1")) Sample.replica
     = Observer.fields_of (Sample.envelope "sala1")
  /\ Observer.onBroadcast Player
       (realtime_message (Sample.owner_app 42 true true)) Sample.replica
     = Observer.fields_of (JObj (state_fields (Sample.owner_app 42 true true))).
Proof.
  destruct (wholesale_replacement (rt := Sample.runtime) "sala1"
              (Sample.envelope "sala1")
              (JObj (state_fields (Sample.owner_app 42 true true)))
              Sample.replica)
    as [[Hmsg _] [Hstorage [Hrealtime _]]];
    [reflexivity | right; reflexivity | reflexivity |].
  split; [exact Hmsg|]. split.
  - apply (Hstorage (Sample.storage_event (Sample.envelope "sala1"))
                    (Sample.json_text (Sample.envelope "sala1")));
      reflexivity.
  - apply Hrealtime. reflexivity.
Defined.

Lemma untagged_envelopes_cross_rooms_witness :
  Observer.onMsg "sala1" Sample.untagged Sample.replica
  = Observer.fields_of Sample.untagged
  /\ @Observer.onStorage Sample.runtime "sala1"
       (Sample.storage_event Sample.untagged) Sample.replica
     = Observer.fields_of Sample.untagged.
Proof.
  destruct (untagged_envelopes_cross_rooms (rt := Sample.runtime) "sala1"
              Sample.untagged Sample.replica) as [Hmsg Hstorage];
    [reflexivity | reflexivity |].
  split; [exact Hmsg|].
  apply (Hstorage (Sample.storage_event Sample.untagged)
                  (Sample.json_text Sample.untagged)); reflexivity.
Defined.

(** ** The owner's game logic *)

Lemma item_at_in_range (l : list PlayItem) (j : Z) :
  0 <= j < Z.of_nat (length l) -> exists it, item_at l j = Some it.
Proof.
  intros Hj. unfold item_at.
  destruct (Z.ltb_spec j 0); [lia|].
  apply lookup_lt_is_Some_2. lia.
Qed.

Lemma item_at_out_of_range (l : list PlayItem) (j : Z) :
  ~ (0 <= j < Z.of_nat (length l)) -> item_at l j = None.
Proof.
  intros Hj. unfold item_at.
  destruct (Z.ltb_spec j 0); [done|].
  apply lookup_ge_None_2. lia.
Qed.

Lemma rem_succ_in_range (j n : Z) :
  0 <= j -> 0 < n -> 0 <= Z.rem (j + 1) n < n.
Proof. intros. apply Z.rem_bound_pos; lia. Qed.

(** From an index of the array the loop never reads outside it, and ends on
    an index of the array. *)
Lemma nextIndex_loop_in_range (l : list PlayItem) (from : Z) (c : nat) :
  forall j,
    0 <= from < Z.of_nat (length l) -> 0 <= j < Z.of_nat (length l) ->
    exists k, nextIndex_loop l from j c = Some k /\ 0 <= k < Z.of_nat (length l).
Proof.
  induction c as [|c IH]; intros j Hfrom Hj; cbn.
  - eauto.
  - destruct (item_at_in_range l j Hj) as [it ->].
    destruct (open_status (status it)); [eauto|].
    apply IH; [done|]. apply rem_succ_in_range; lia.
Qed.

Lemma nextIndex_in_range (l : list PlayItem) (from : Z) :
  0 <= from < Z.of_nat (length l) ->
  exists k, nextIndex l from = Some k /\ 0 <= k < Z.of_nat (length l).
Proof.
  intros Hfrom. unfold nextIndex. destruct l as [|x l']; [cbn in Hfrom; lia|].
  apply nextIndex_loop_in_range; [done|].
  apply rem_succ_in_range; lia.
Qed.

Section OwnerFacts.
Context {rt : Runtime}.

Lemma nonempty_or_throw_inr (m m' : list PlayItem) :
  nonempty_or_throw m = inr m' -> m' = m /\ m <> [].
Proof. destruct m; cbn; [discriminate|]. by intros [= <-]. Qed.

Lemma try_url_nonempty r m : try_url r = inr m -> m <> [].
Proof.
  destruct r; cbn; try discriminate.
  intros H. by apply nonempty_or_throw_inr in H as [-> ?].
Qed.

Lemma try_file_nonempty r m : try_file r = inr m -> m <> [].
Proof.
  destruct r; cbn; try discriminate.
  intros H. by apply nonempty_or_throw_inr in H as [-> ?].
Qed.

Lemma index_zero_valid (l : list PlayItem) :
  l <> [] -> 0 <= 0 < Z.of_nat (length l).
Proof. destruct l; [done|]. cbn. lia. Qed.

(** [mark] on a state that satisfies the index invariant succeeds, and
    says what the next state is. *)
Lemma mark_in_range st a :
  valid_index a ->
  exists a', mark st a = Some a' /\
    (a' = a \/
     exists cur j,
       item_at (items a) (idx a) = Some cur /\
       nextIndex (items a) (idx a) = Some j /\
       0 <= j < Z.of_nat (length (items a)) /\
       a' = setIdx j (setItems (<[Z.to_nat (idx a) := with_status cur st]> (items a)) a)).
Proof.
  intros Hidx. unfold mark.
  destruct (negb (is_owner (role a)) || finished a); [eauto|].
  destruct (items a) as [|x l'] eqn:Hitems; [eauto|].
  assert (Hr : 0 <= idx a < Z.of_nat (length (x :: l'))).
  { rewrite <- Hitems. apply Hidx. by rewrite Hitems. }
  destruct (item_at_in_range _ _ Hr) as [cur ->].
  destruct (nextIndex_in_range _ _ Hr) as (j & -> & Hj).
  eexists. split; [done|]. right. by exists cur, j.
Qed.

Lemma step_preserves o a a' :
  finished_stops a /\ valid_index a ->
  step o a = Some a' ->
  finished_stops a' /\ valid_index a'.
Proof.
  unfold finished_stops, valid_index. intros [Hf Hi] Hstep.
  destruct o; cbn in Hstep;
    try (injection Hstep as <-).
  - unfold start. destruct (is_owner (role a)); cbn; auto.
  - unfold pause. destruct (is_owner (role a)); cbn; auto.
  - unfold reset. destruct (negb (is_owner (role a))); cbn; auto.
    split; [done|]. intros Hne. by apply index_zero_valid.
  - destruct (mark_in_range st a Hi) as (a1 & Hm & [-> | (cur & j & _ & _ & Hj & ->)]);
      rewrite Hm in Hstep; injection Hstep as <-; [done|].
    cbn. split; [done|]. intros _. by rewrite length_insert.
  - unfold adjustTimer, setTimer.
    destruct (negb (is_owner (role a))); cbn; auto.
  - unfold applyTimerInput, setTimer.
    destruct parsed; [destruct (negb (is_owner (role a)))|]; cbn; auto.
  - unfold loadFromUrl.
    destruct (try_url r) as [e|m] eqn:Hm; [cbn; split; [done | by intros []]|].
    apply try_url_nonempty in Hm.
    destruct silent; cbn; (split; [done|]); intros _; by apply index_zero_valid.
  - unfold loadFromFile.
    destruct (try_file r) as [e|m] eqn:Hm; [cbn; auto|].
    apply try_file_nonempty in Hm.
    cbn. split; [done|]. intros _. by apply index_zero_valid.
  - unfold tick.
    destruct (negb (is_owner (role a)) || negb (running a) || finished a); cbn; auto.
  - unfold expire. destruct (expired a); cbn; auto.
  - cbn. auto.
  - cbn. auto.
Qed.

Lemma reachable_invariant (room : string) (d0 : Z) (a : App) :
  reachable room d0 a -> finished_stops a /\ valid_index a.
Proof.
  induction 1 as [|o a a' _ IH Hstep].
  - split; [done|]. by intros [].
  - by apply step_preserves with o a.
Qed.

(** C4. Invariant preservation: in every state an owner session can
    reach through start, pause, reset, mark, the timer controls, a bank
    load, a countdown tick or the expiry, a finished game is not running
    and, when there are items, the index points at one of them. *)
Theorem invariant_preservation (room : string) (d0 : Z) (a : App) :
  reachable room d0 a ->
  (finished a = true -> running a = false)
  /\ (items a <> [] -> 0 <= idx a < Z.of_nat (length (items a))).
Proof.
  intros Hreach. by apply reachable_invariant with room d0.
Qed.

(** No operation of a reachable state leaves the model: [mark] never
    writes outside the array. *)
Lemma step_total (room : string) (d0 : Z) (a : App) (o : Op) :
  reachable room d0 a -> exists a', step o a = Some a'.
Proof.
  intros Hreach. destruct o; cbn; eauto.
  destruct (reachable_invariant room d0 a Hreach) as [_ Hi].
  destruct (mark_in_range st a Hi) as (a' & -> & _). eauto.
Qed.

End OwnerFacts.

(** ** The scan of [nextIndex] *)

Section Scan.
Variable l : list PlayItem.
Variable from : Z.
Let n := Z.of_nat (length l).
Hypothesis Hfrom : 0 <= from < n.

Lemma n_positive : 0 < n.
Proof. lia. Qed.

Lemma scan_next (k : Z) :
  0 <= k -> Z.rem ((from + k) mod n + 1) n = (from + (k + 1)) mod n.
Proof.
  intros Hk. pose proof n_positive as Hn.
  pose proof (Z.mod_pos_bound (from + k) n Hn) as Hb.
  rewrite Z.rem_mod_nonneg by lia.
  rewrite Zplus_mod_idemp_l. f_equal. lia.
Qed.

(** The loop entered at position [from + k0] (modulo the length) with [c]
    iterations left: it stops at the first open item among the next [c]
    positions, and falls back on [from] when there is none. *)
Lemma nextIndex_loop_scan (c : nat) :
  forall k0, 0 <= k0 ->
    (exists k, k0 <= k < k0 + Z.of_nat c
       /\ nextIndex_loop l from ((from + k0) mod n) c = Some ((from + k) mod n)
       /\ is_open l ((from + k) mod n) = true
       /\ forall k', k0 <= k' < k -> is_open l ((from + k') mod n) = false)
    \/ (nextIndex_loop l from ((from + k0) mod n) c = Some from
        /\ forall k', k0 <= k' < k0 + Z.of_nat c ->
             is_open l ((from + k') mod n) = false).
Proof.
  induction c as [|c IH]; intros k0 Hk0.
  - right. split; [done|]. intros k' Hk'. lia.
  - pose proof n_positive as Hn.
    pose proof (Z.mod_pos_bound (from + k0) n Hn) as Hb.
    destruct (item_at_in_range l ((from + k0) mod n) Hb) as [it Hit].
    assert (Hopen : is_open l ((from + k0) mod n) = open_status (status it))
      by (unfold is_open; by rewrite Hit).
    cbn [nextIndex_loop]. rewrite Hit. fold n.
    destruct (open_status (status it)) eqn:Hst.
    + left. exists k0. split; [lia|]. split; [done|]. split; [done|].
      intros k' Hk'. lia.
    + rewrite scan_next by done.
      destruct (IH (k0 + 1)) as [(k & Hk & Hloop & Hk_open & Hbefore) | [Hloop Hnone]];
        [lia | |].
      * left. exists k. split; [lia|]. split; [done|]. split; [done|].
        intros k' Hk'. destruct (Z.eq_dec k' k0) as [-> | Hne]; [done|].
        apply Hbefore. lia.
      * right. split; [done|]. intros k' Hk'.
        destruct (Z.eq_dec k' k0) as [-> | Hne]; [done|].
        apply Hnone. lia.
Qed.

Lemma nextIndex_scan :
  (exists k, 1 <= k <= n
     /\ nextIndex l from = Some ((from + k) mod n)
     /\ is_open l ((from + k) mod n) = true
     /\ forall k', 1 <= k' < k -> is_open l ((from + k') mod n) = false)
  \/ (nextIndex l from = Some from
      /\ forall k', 1 <= k' <= n -> is_open l ((from + k') mod n) = false).
Proof.
  pose proof n_positive as Hn.
  assert (Hunfold : nextIndex l from
                    = nextIndex_loop l from ((from + 1) mod n) (length l)).
  { unfold nextIndex. subst n. destruct l as [|x l']; [cbn in Hn; lia|].
    f_equal. apply Z.rem_mod_nonneg; lia. }
  rewrite Hunfold.
  destruct (nextIndex_loop_scan (length l) 1) as [(k & Hk & H) | [Hloop Hnone]];
    [lia | |].
  - left. exists k. split; [fold n in Hk; lia | done].
  - right. split; [done|]. intros k' Hk'. apply Hnone. fold n. lia.
Qed.

(** A full turn comes back to the start, a shorter one does not. *)
Lemma full_turn : (from + n) mod n = from.
Proof.
  replace (from + n) with (from + 1 * n) by lia.
  rewrite Z_mod_plus_full. apply Z.mod_small. lia.
Qed.

Lemma shorter_turn (k : Z) : 1 <= k < n -> (from + k) mod n <> from.
Proof.
  intros Hk. destruct (Z.lt_ge_cases (from + k) n) as [Hlt | Hge].
  - rewrite Z.mod_small by lia. lia.
  - replace (from + k) with (from + k - n + 1 * n) by lia.
    rewrite Z_mod_plus_full, Z.mod_small by lia. lia.
Qed.

(** Every other index is met on the way round. *)
Lemma turn_covers (j : Z) :
  0 <= j < n -> j <> from -> exists k, 1 <= k < n /\ (from + k) mod n = j.
Proof.
  intros Hj Hne. pose proof n_positive as Hn.
  pose proof (Z.mod_pos_bound (j - from) n Hn) as Hb.
  assert (Hsum : (from + (j - from) mod n) mod n = j).
  { rewrite Zplus_mod_idemp_r. replace (from + (j - from)) with j by lia.
    apply Z.mod_small. lia. }
  exists ((j - from) mod n). split; [|done].
  destruct (Z.eq_dec ((j - from) mod n) 0) as [Hz | Hnz]; [|lia].
  rewrite Hz, Z.add_0_r, Z.mod_small in Hsum by lia. congruence.
Qed.

End Scan.

(** ** What a send carries *)

Lemma broadcastAll_sends (a : App) (h : Handles) (c : Clock) (s : Send) :
  In s (snd (broadcastAll a h c)) ->
  s = BcPost (JObj (local_payload a))
  \/ s = StorageSet "rosco-sync"
           (JObj (local_payload a ++ [("ts", JNum (Date_now c))]))
  \/ exists channel,
       roomChannelRef h = Some channel /\ joined a = true
       /\ s = ChannelSend channel (realtime_message a).
Proof.
  unfold broadcastAll, broadcastLocal, broadcastRealtime.
  destruct (negb (is_owner (role a))); [intros []|].
  destruct (roomChannelRef h) as [channel|]; [destruct (joined a); cbn [negb]|];
    try destruct (performance_now c - lastSentRef h <? 120);
    destruct (bc h); cbn; intuition eauto.
Qed.

(** Every message of [broadcastAll] carries the five state fields of the
    render it was called in. *)
Lemma broadcastAll_carries (a : App) (h : Handles) (c : Clock) (s : Send) :
  In s (snd (broadcastAll a h c)) ->
  prop (carried s) "items" = JArr (map js_of_item (items a))
  /\ prop (carried s) "idx" = JNum (idx a)
  /\ prop (carried s) "seconds" = JNum (seconds a)
  /\ prop (carried s) "running" = JBool (running a)
  /\ prop (carried s) "finished" = JBool (finished a).
Proof.
  intros Hs.
  destruct (broadcastAll_sends a h c s Hs) as [-> | [-> | (ch & _ & _ & ->)]];
    by repeat split.
Qed.

Lemma publish_effect_carries (a : App) (h : Handles) (c : Clock) (s : Send) :
  In s (snd (publish_effect a h c)) ->
  prop (carried s) "items" = JArr (map js_of_item (items a))
  /\ prop (carried s) "idx" = JNum (idx a)
  /\ prop (carried s) "seconds" = JNum (seconds a)
  /\ prop (carried s) "running" = JBool (running a)
  /\ prop (carried s) "finished" = JBool (finished a).
Proof.
  unfold publish_effect. destruct (is_owner (role a) && joined a); [|intros []].
  apply broadcastAll_carries.
Qed.

(** ** Mark and advance *)

Section MarkFacts.
Variable a : App.
Variable st : Status.
Variable cur : PlayItem.
Let n := Z.of_nat (length (items a)).
Let updated := <[Z.to_nat (idx a) := with_status cur st]> (items a).
Hypothesis Hidx : 0 <= idx a < n.

Lemma updated_at_index : item_at updated (idx a) = Some (with_status cur st).
Proof.
  unfold item_at. destruct (Z.ltb_spec (idx a) 0); [lia|].
  apply list_lookup_insert_eq. lia.
Qed.

Lemma updated_elsewhere (j : Z) : j <> idx a -> item_at updated j = item_at (items a) j.
Proof.
  intros Hj. unfold item_at. destruct (Z.ltb_spec j 0); [done|].
  apply list_lookup_insert_ne. lia.
Qed.

Lemma open_at_index : is_open updated (idx a) = open_status st.
Proof. unfold is_open. by rewrite updated_at_index. Qed.

Lemma open_elsewhere (j : Z) : j <> idx a -> is_open updated j = is_open (items a) j.
Proof. intros Hj. unfold is_open. by rewrite updated_elsewhere. Qed.

(** When no other item is open, the index stays: it is the next open item
    if the new status is open, and no item is open otherwise. *)
Lemma scan_back_home :
  (forall k', 1 <= k' < n -> is_open (items a) ((idx a + k') mod n) = false) ->
  (exists k, 1 <= k <= n /\ idx a = (idx a + k) mod n
     /\ is_open updated (idx a) = true
     /\ forall k', 1 <= k' < k -> is_open updated ((idx a + k') mod n) = false)
  \/ (forall j, is_open updated j = false).
Proof.
  intros Hclosed.
  assert (Hothers : forall k', 1 <= k' < n ->
                      is_open updated ((idx a + k') mod n) = false).
  { intros k' Hk'. rewrite open_elsewhere; [by apply Hclosed|].
    by apply shorter_turn. }
  destruct (open_status st) eqn:Hst.
  - left. exists n. split; [lia|]. split; [symmetry; by apply full_turn|].
    split; [by rewrite open_at_index | done].
  - right. intros j. destruct (Z.eq_dec j (idx a)) as [-> | Hne].
    { by rewrite open_at_index. }
    destruct (Z_lt_dec j 0) as [Hneg | Hpos];
      [unfold is_open; by rewrite item_at_out_of_range by lia|].
    destruct (Z_lt_dec j n) as [Hlt | Hge];
      [|unfold is_open; rewrite item_at_out_of_range; [done|];
        subst updated n; rewrite length_insert; lia].
    destruct (turn_covers (items a) (idx a) Hidx j) as (k & Hk & <-); [lia | done |].
    by apply Hothers.
Qed.

End MarkFacts.

(** C6 (amended). Mark and advance: with items, a valid index and the
    game not finished, marking sets the status of the current item and
    nothing else in the list, and moves the index to the first pending or
    skipped item met from [idx + 1] on, wrapping round and ending on the
    current item itself; when no item is pending or skipped the index
    stays where it is. The snapshot the publish effect then sends carries
    these items and this index. *)
Theorem mark_and_advance (st : Status) (a : App) :
  role a = Owner -> finished a = false ->
  0 <= idx a < Z.of_nat (length (items a)) ->
  exists a' cur,
    mark st a = Some a'
    /\ item_at (items a) (idx a) = Some cur
    /\ items a' = <[Z.to_nat (idx a) := with_status cur st]> (items a)
    /\ item_at (items a') (idx a) = Some (with_status cur st)
    /\ ((exists k, 1 <= k <= Z.of_nat (length (items a))
           /\ idx a' = (idx a + k) mod Z.of_nat (length (items a))
           /\ is_open (items a') (idx a') = true
           /\ forall k', 1 <= k' < k ->
                is_open (items a') ((idx a + k') mod Z.of_nat (length (items a))) = false)
        \/ (idx a' = idx a /\ forall j, is_open (items a') j = false))
    /\ (forall h c s, In s (snd (publish_effect a' h c)) ->
          prop (carried s) "items" = JArr (map js_of_item (items a'))
          /\ prop (carried s) "idx" = JNum (idx a')).
Proof.
  intros Hrole Hfin Hidx.
  destruct (item_at_in_range _ _ Hidx) as [cur Hcur].
  assert (Hmark : forall j, nextIndex (items a) (idx a) = Some j ->
            mark st a
            = Some (setIdx j (setItems (<[Z.to_nat (idx a) := with_status cur st]> (items a)) a))).
  { intros j Hj. unfold mark. rewrite Hrole, Hfin, Hcur, Hj. cbn.
    destruct (items a); [cbn in Hidx; lia | done]. }
  assert (Hfinal : forall j,
            nextIndex (items a) (idx a) = Some j ->
            ((exists k, 1 <= k <= Z.of_nat (length (items a))
                /\ j = (idx a + k) mod Z.of_nat (length (items a))
                /\ is_open (<[Z.to_nat (idx a) := with_status cur st]> (items a)) j = true
                /\ forall k', 1 <= k' < k ->
                     is_open (<[Z.to_nat (idx a) := with_status cur st]> (items a))
                       ((idx a + k') mod Z.of_nat (length (items a))) = false)
             \/ (j = idx a
                 /\ forall j', is_open (<[Z.to_nat (idx a) := with_status cur st]> (items a)) j' = false)) ->
            exists a' cur0, mark st a = Some a'
              /\ item_at (items a) (idx a) = Some cur0
              /\ items a' = <[Z.to_nat (idx a) := with_status cur0 st]> (items a)
              /\ item_at (items a') (idx a) = Some (with_status cur0 st)
              /\ ((exists k, 1 <= k <= Z.of_nat (length (items a))
                     /\ idx a' = (idx a + k) mod Z.of_nat (length (items a))
                     /\ is_open (items a') (idx a') = true
                     /\ forall k', 1 <= k' < k ->
                          is_open (items a') ((idx a + k') mod Z.of_nat (length (items a))) = false)
                  \/ (idx a' = idx a /\ forall j, is_open (items a') j = false))
              /\ (forall h c s, In s (snd (publish_effect a' h c)) ->
                    prop (carried s) "items" = JArr (map js_of_item (items a'))
                    /\ prop (carried s) "idx" = JNum (idx a'))).
  { intros j Hj Hscan. eexists _, cur. split; [by apply Hmark|].
    split; [done|]. split; [done|].
    split; [by apply updated_at_index|]. split; [exact Hscan|].
    intros h c s Hs. by destruct (publish_effect_carries _ h c s Hs) as (? & ? & _). }
  destruct (nextIndex_scan (items a) (idx a) Hidx)
    as [(k & Hk & Hnext & Hopen & Hbefore) | [Hnext Hnone]].
  - destruct (Z.eq_dec k (Z.of_nat (length (items a)))) as [-> | Hshort].
    + rewrite full_turn in Hnext by done.
      apply (Hfinal _ Hnext).
      destruct (scan_back_home a st cur Hidx Hbefore) as [Hhome | Hnoopen];
        [by left | by right].
    + apply (Hfinal _ Hnext). left. exists k. split; [done|]. split; [done|].
      split.
      * rewrite (open_elsewhere a st cur Hidx) by (apply shorter_turn; lia). done.
      * intros k' Hk'.
        rewrite (open_elsewhere a st cur Hidx) by (apply shorter_turn; lia).
        by apply Hbefore.
  - apply (Hfinal _ Hnext).
    destruct (scan_back_home a st cur Hidx) as [Hhome | Hnoopen];
      [intros k' Hk'; apply Hnone; lia | by left | by right].
Qed.

Lemma mark_and_advance_witness :
  exists a' cur,
    mark Bien (Sample.owner_app 180 true true) = Some a'
    /\ item_at (items (Sample.owner_app 180 true true))
               (idx (Sample.owner_app 180 true true)) = Some cur
    /\ item_at (items a') (idx (Sample.owner_app 180 true true))
       = Some (with_status cur Bien).
Proof.
  destruct (mark_and_advance Bien (Sample.owner_app 180 true true))
    as (a' & cur & Hmark & Hcur & _ & Hstatus & _);
    [reflexivity | reflexivity | cbn; lia |].
  exists a', cur. repeat split; assumption.
Defined.

(** C6, as stated, fails where the item marked was the last open one: the
    index stays on an item that is neither pending nor skipped. *)
Lemma mark_and_advance_counterexample :
  mark Bien Sample.last_question = Some Sample.all_answered
  /\ is_open (items Sample.all_answered) (idx Sample.all_answered) = false
  /\ forall j, is_open (items Sample.all_answered) j = false.
Proof.
  split; [reflexivity|]. split; [reflexivity|].
  intros j. unfold is_open, item_at.
  destruct (j <? 0); [done|].
  destruct (Z.to_nat j) as [|[|[|i]]]; reflexivity.
Qed.

Lemma invariant_preservation_witness :
  (finished Sample.first_answered = true -> running Sample.first_answered = false)
  /\ (items Sample.first_answered <> [] ->
      0 <= idx Sample.first_answered
        < Z.of_nat (length (items Sample.first_answered))).
Proof.
  apply (invariant_preservation (rt := Sample.runtime) "sala1" 180).
  apply reach_step with (OpMark Bien)
    (mkApp Owner "sala1" Sample.two_items 0 true false
           (Some BankLoadedFromFile) 180 180 false); [|reflexivity].
  apply reach_step with OpStart
    (mkApp Owner "sala1" Sample.two_items 0 false false
           (Some BankLoadedFromFile) 180 180 false); [|reflexivity].
  apply reach_step with (OpLoadFile (FileJson Sample.bank) 180)
    (initial Owner "sala1" 180); [|reflexivity].
  apply reach_initial.
Defined.

(** ** The countdown *)

Section TimerFacts.
Context {rt : Runtime}.


Lemma minus_one_exact (s : Z) : s <= 2 ^ 53 -> minus_one s = s - 1.
Proof. intros Hs. unfold minus_one. by destruct (Z.leb_spec s (2 ^ 53)); [|lia]. Qed.



End TimerFacts.



(** ** Ingestion *)

Section IngestionFacts.
Context {rt : Runtime}.












End IngestionFacts.


Example bank_sample : @mapped Sample.runtime Sample.bank = Sample.two_items.
Proof. reflexivity. Qed.

(** ** Publishing *)

Lemma count_app (p : Send -> bool) (l1 l2 : list Send) :
  count p (l1 ++ l2) = (count p l1 + count p l2)%nat.
Proof. unfold count. by rewrite List.filter_app, length_app. Qed.

Lemma broadcastLocal_counts (a : App) (h : Handles) (c : Clock) :
  count is_storage_set (broadcastLocal a h c) = 1%nat
  /\ count is_bc_post (broadcastLocal a h c) = (if bc h then 1 else 0)%nat
  /\ count is_channel_send (broadcastLocal a h c) = 0%nat.
Proof. unfold broadcastLocal. by destruct (bc h). Qed.

(** The network leg: nothing, or one message and the new time stamp. *)
Lemma broadcastRealtime_cases (a : App) (h : Handles) (c : Clock) :
  broadcastRealtime a h c = (h, [])
  \/ (exists channel,
        roomChannelRef h = Some channel /\ joined a = true
        /\ 120 <= performance_now c - lastSentRef h
        /\ broadcastRealtime a h c
           = (setLastSent (performance_now c) h,
              [ChannelSend channel (realtime_message a)])).
Proof.
  unfold broadcastRealtime.
  destruct (roomChannelRef h) as [channel|]; [|by left].
  destruct (joined a); [|by left]. cbn.
  destruct (Z.ltb_spec (performance_now c - lastSentRef h) 120); [by left|].
  right. by exists channel.
Qed.

Lemma broadcastRealtime_throttled (a : App) (h : Handles) (c : Clock) :
  performance_now c - lastSentRef h < 120 -> broadcastRealtime a h c = (h, []).
Proof.
  intros Hsoon.
  destruct (broadcastRealtime_cases a h c) as [H | (ch & _ & _ & Hlate & _)];
    [done | lia].
Qed.

Lemma publish_effect_unjoined (a : App) (h : Handles) (c : Clock) :
  joined a = false -> publish_effect a h c = (h, []).
Proof. intros Hj. unfold publish_effect. by rewrite Hj, andb_false_r. Qed.

Lemma publish_effect_joined (a : App) (h : Handles) (c : Clock) :
  role a = Owner -> joined a = true ->
  publish_effect a h c
  = (fst (broadcastRealtime a h c),
     broadcastLocal a h c ++ snd (broadcastRealtime a h c)).
Proof.
  intros Hr Hj. unfold publish_effect, broadcastAll. rewrite Hr, Hj. cbn.
  by destruct (broadcastRealtime a h c).
Qed.

Lemma broadcastAll_split (a : App) (h : Handles) (c : Clock) :
  is_owner (role a) = true ->
  broadcastAll a h c
  = (fst (broadcastRealtime a h c),
     broadcastLocal a h c ++ snd (broadcastRealtime a h c)).
Proof.
  intros Hr. unfold broadcastAll. rewrite Hr. cbn.
  by destruct (broadcastRealtime a h c).
Qed.

(** A message on the network channel means: joined, 120 ms or more since
    the last accepted send, and the time stamp moved to now. *)
Lemma broadcastAll_network (a : App) (h : Handles) (c : Clock)
    (channel : string) (m : JsValue) :
  In (ChannelSend channel m) (snd (broadcastAll a h c)) ->
  joined a = true
  /\ 120 <= performance_now c - lastSentRef h
  /\ lastSentRef (fst (broadcastAll a h c)) = performance_now c.
Proof.
  unfold broadcastAll.
  destruct (is_owner (role a)) eqn:Hr; [|intros []]. cbn [negb].
  destruct (broadcastRealtime_cases a h c) as [-> | (ch & _ & Hj & Hlate & ->)];
    cbn [fst snd]; intros Hin; apply in_app_or in Hin as [Hin | Hin].
  - unfold broadcastLocal in Hin. destruct (bc h); cbn in Hin;
      intuition discriminate.
  - destruct Hin.
  - unfold broadcastLocal in Hin. destruct (bc h); cbn in Hin;
      intuition discriminate.
  - done.
Qed.

(** The effects of a render are the calls of [broadcastAll] they make. *)
Lemma effects_of_calls (rd : Render) (h : Handles) :
  effects_of rd h = broadcast_calls (calls_of rd) h.
Proof.
  unfold effects_of, calls_of, expiry_effect, publish_effect.
  destruct (timer_changed rd); cbn [andb].
  - destruct (expired (shown rd)); cbn [app broadcast_calls].
    + destruct (broadcastAll (shown rd) h (expiry_clock rd)) as [h1 sent1].
      destruct (is_owner (role (shown rd)) && joined (shown rd));
        cbn [app broadcast_calls].
      * destruct (broadcastAll (shown rd) h1 (publish_clock rd)) as [h2 sent2].
        by rewrite app_nil_r.
      * done.
    + destruct (is_owner (role (shown rd)) && joined (shown rd));
        cbn [app broadcast_calls]; [|done].
      destruct (broadcastAll (shown rd) h (publish_clock rd)) as [h2 sent2].
      by rewrite app_nil_r.
  - destruct (is_owner (role (shown rd)) && joined (shown rd));
      cbn [app broadcast_calls]; [|done].
    destruct (broadcastAll (shown rd) h (publish_clock rd)) as [h2 sent2].
    by rewrite app_nil_r.
Qed.

Lemma broadcast_calls_app (l1 l2 : list (App * Clock)) (h : Handles) :
  broadcast_calls (l1 ++ l2) h
  = (fst (broadcast_calls l2 (fst (broadcast_calls l1 h))),
     snd (broadcast_calls l1 h)
     ++ snd (broadcast_calls l2 (fst (broadcast_calls l1 h)))).
Proof.
  revert h. induction l1 as [|[a c] l1 IH]; intros h; cbn [app broadcast_calls].
  - cbn [fst snd app]. by destruct (broadcast_calls l2 h).
  - destruct (broadcastAll a h c) as [h1 sent1]. rewrite IH.
    destruct (broadcast_calls l1 h1) as [h2 sent2]. cbn [fst snd].
    by rewrite app_assoc.
Qed.

Lemma effects_all_calls (renders : list Render) (h : Handles) :
  effects_all renders h = broadcast_calls (concat (map calls_of renders)) h.
Proof.
  revert h. induction renders as [|rd rest IH]; intros h; [done|].
  cbn [effects_all map concat]. rewrite broadcast_calls_app, effects_of_calls.
  destruct (broadcast_calls (calls_of rd) h) as [h1 sent1]. cbn [fst snd].
  rewrite IH. by destruct (broadcast_calls _ h1).
Qed.

(** Calls that all come less than 120 ms after the last accepted send put
    nothing on the network and leave the time stamp alone. *)
Lemma calls_quiet (calls : list (App * Clock)) (h : Handles) :
  (forall a c, In (a, c) calls -> is_owner (role a) = true) ->
  (forall a c, In (a, c) calls -> performance_now c - lastSentRef h < 120) ->
  fst (broadcast_calls calls h) = h
  /\ count is_channel_send (snd (broadcast_calls calls h)) = 0%nat.
Proof.
  induction calls as [|[a c] rest IH]; intros Hown Hsoon; [done|].
  cbn [broadcast_calls]. rewrite broadcastAll_split by (apply (Hown a c); by left).
  rewrite (broadcastRealtime_throttled a h c) by (apply (Hsoon a c); by left).
  cbn [fst snd].
  destruct IH as [Hh Hcount];
    [intros a' c' H; apply (Hown a' c'); by right
    |intros a' c' H; apply (Hsoon a' c'); by right|].
  destruct (broadcast_calls rest h) as [h2 sent2]; cbn [fst snd] in *.
  split; [done|]. rewrite app_nil_r, count_app, Hcount.
  by destruct (broadcastLocal_counts a h c) as (_ & _ & ->).
Qed.

Lemma bc_after_calls (calls : list (App * Clock)) (h : Handles) :
  bc (fst (broadcast_calls calls h)) = bc h.
Proof.
  revert h. induction calls as [|[a c] rest IH]; intros h; [done|].
  cbn [broadcast_calls].
  assert (Hbc : bc (fst (broadcastAll a h c)) = bc h).
  { unfold broadcastAll. destruct (negb (is_owner (role a))); [done|].
    by destruct (broadcastRealtime_cases a h c) as [-> | (ch & _ & _ & _ & ->)]. }
  destruct (broadcastAll a h c) as [h1 sent1]. cbn [fst] in Hbc.
  specialize (IH h1). destruct (broadcast_calls rest h1) as [h2 sent2].
  cbn [fst] in *. congruence.
Qed.

(** Every call of an owner writes the slot once and posts once where
    there is a BroadcastChannel. *)
Lemma calls_local (calls : list (App * Clock)) (h : Handles) :
  (forall a c, In (a, c) calls -> is_owner (role a) = true) ->
  count is_storage_set (snd (broadcast_calls calls h)) = length calls
  /\ count is_bc_post (snd (broadcast_calls calls h))
     = (if bc h then length calls else 0%nat).
Proof.
  revert h. induction calls as [|[a c] rest IH]; intros h Hown;
    [by destruct (bc h)|].
  cbn [broadcast_calls]. rewrite broadcastAll_split by (apply (Hown a c); by left).
  assert (Hbc : bc (fst (broadcastRealtime a h c)) = bc h).
  { by destruct (broadcastRealtime_cases a h c) as [-> | (ch & _ & _ & _ & ->)]. }
  assert (Hnet : count is_storage_set (snd (broadcastRealtime a h c)) = 0%nat
                 /\ count is_bc_post (snd (broadcastRealtime a h c)) = 0%nat).
  { by destruct (broadcastRealtime_cases a h c) as [-> | (ch & _ & _ & _ & ->)]. }
  destruct (IH (fst (broadcastRealtime a h c))
               (fun a c H => Hown a c (or_intror H))) as [Hs Hb].
  destruct (broadcast_calls rest (fst (broadcastRealtime a h c))) as [h2 sent2].
  destruct (broadcastLocal_counts a h c) as (Hl1 & Hl2 & _).
  destruct Hnet as [Hn1 Hn2]. cbn [fst snd length] in *.
  rewrite !count_app, Hl1, Hl2, Hn1, Hn2, Hs, Hb, Hbc.
  split; [done|]. by destruct (bc h).
Qed.

(** Calls within one window shorter than 120 ms: one message at most. *)
Lemma calls_throttled (calls : list (App * Clock)) (h : Handles) :
  (forall a c, In (a, c) calls -> is_owner (role a) = true) ->
  (forall a c a' c', In (a, c) calls -> In (a', c') calls ->
     performance_now c' - performance_now c < 120) ->
  (count is_channel_send (snd (broadcast_calls calls h)) <= 1)%nat
  /\ (count is_channel_send (snd (broadcast_calls calls h)) = 0%nat ->
      fst (broadcast_calls calls h) = h).
Proof.
  revert h. induction calls as [|[a c] rest IH]; intros h Hown Hwin;
    [cbn; split; [lia | done]|].
  cbn [broadcast_calls]. rewrite broadcastAll_split by (apply (Hown a c); by left).
  destruct (broadcastLocal_counts a h c) as (_ & _ & Hl).
  destruct (broadcastRealtime_cases a h c) as [-> | (ch & _ & _ & _ & ->)];
    cbn [fst snd].
  - destruct (IH h (fun a c H => Hown a c (or_intror H))
                 (fun a c a' c' H H' => Hwin a c a' c' (or_intror H) (or_intror H')))
      as [Hle Hzero].
    destruct (broadcast_calls rest h) as [h2 sent2]; cbn [fst snd] in *.
    rewrite app_nil_r, count_app, Hl. cbn [Nat.add]. done.
  - destruct (calls_quiet rest (setLastSent (performance_now c) h)
                (fun a c H => Hown a c (or_intror H))) as [_ Hquiet].
    { intros a' c' Hin. cbn. apply (Hwin a c a' c'); [by left | by right]. }
    destruct (broadcast_calls rest _) as [h2 sent2]; cbn [fst snd] in *.
    rewrite !count_app, Hl, Hquiet. cbn. split; [lia | discriminate].
Qed.

Lemma calls_of_render (rd : Render) :
  role (shown rd) = Owner -> joined (shown rd) = true ->
  length (calls_of rd)
  = ((if timer_changed rd && expired (shown rd) then 1 else 0) + 1)%nat
  /\ (forall a c, In (a, c) (calls_of rd) ->
        a = shown rd /\ In (performance_now c) (clock_reads rd)).
Proof.
  intros Hr Hj. unfold calls_of, clock_reads. rewrite Hr, Hj. cbn [is_owner andb].
  destruct (timer_changed rd && expired (shown rd)); cbn; split; try done.
  - intros a c [[= <- <-] | [[= <- <-] | []]]; auto.
  - intros a c [[= <- <-] | []]; auto.
Qed.

Lemma calls_of_renders (renders : list Render) :
  (forall rd, In rd renders ->
     role (shown rd) = Owner /\ joined (shown rd) = true) ->
  length (concat (map calls_of renders))
  = (length renders + expirations renders)%nat
  /\ (forall a c, In (a, c) (concat (map calls_of renders)) ->
        exists rd, In rd renders /\ a = shown rd
                   /\ In (performance_now c) (clock_reads rd)).
Proof.
  unfold expirations.
  induction renders as [|rd rest IH]; intros Hj; [by split; [|intros ? ? []]|].
  destruct (Hj rd) as [Hr Hjn]; [by left|].
  destruct (calls_of_render rd Hr Hjn) as [Hlen Hin].
  destruct IH as [IHlen IHin]; [intros rd' H; apply Hj; by right|].
  cbn [map concat List.filter]. rewrite length_app, Hlen, IHlen. split.
  - destruct (timer_changed rd && expired (shown rd)); cbn [length]; lia.
  - intros a c Hac. apply in_app_or in Hac as [Hac | Hac].
    + destruct (Hin a c Hac) as [-> Ht]. exists rd. split; [by left | done].
    + destruct (IHin a c Hac) as (rd' & Hrd' & Ha & Ht). exists rd'.
      split; [by right | done].
Qed.

(** C3 (amended). Throttle bound: for state changes of a joined owner
    whose effects all read the clock within one window shorter than
    120 ms, at most one message goes to the network channel and the time
    stamp moves only when one does; every change is written to the
    storage slot, once more in a render where the expiry effect makes its
    own broadcast, and so is it posted on the BroadcastChannel where the
    browser has one, and not at all where it has none. A message goes to
    the network only when joined and 120 ms or more after the last
    accepted one. Before the join completes a change is sent on no
    transport; the one broadcast then left is the expiry's own, which is
    local. *)
Theorem throttle_bound (renders : list Render) (h : Handles) :
  (forall rd, In rd renders ->
     role (shown rd) = Owner /\ joined (shown rd) = true) ->
  (forall rd rd' t t', In rd renders -> In rd' renders ->
     In t (clock_reads rd) -> In t' (clock_reads rd') -> t' - t < 120) ->
  (count is_channel_send (snd (effects_all renders h)) <= 1)%nat
  /\ (count is_channel_send (snd (effects_all renders h)) = 0%nat ->
      fst (effects_all renders h) = h)
  /\ count is_storage_set (snd (effects_all renders h))
     = (length renders + expirations renders)%nat
  /\ count is_bc_post (snd (effects_all renders h))
     = (if bc h then (length renders + expirations renders)%nat else 0%nat)
  /\ (forall a c h0 channel m,
        In (ChannelSend channel m) (snd (broadcastAll a h0 c)) ->
        joined a = true
        /\ 120 <= performance_now c - lastSentRef h0
        /\ lastSentRef (fst (broadcastAll a h0 c)) = performance_now c)
  /\ (forall rd h0, joined (shown rd) = false ->
        effects_of rd h0
        = (h0, if timer_changed rd && expired (shown rd)
               then broadcastLocal (shown rd) h0 (expiry_clock rd) else [])).
Proof.
  intros Hj Hwin. rewrite effects_all_calls.
  destruct (calls_of_renders renders Hj) as [Hlen Hin].
  assert (Hown : forall a c, In (a, c) (concat (map calls_of renders)) ->
                   is_owner (role a) = true).
  { intros a c Hac. destruct (Hin a c Hac) as (rd & Hrd & -> & _).
    destruct (Hj rd Hrd) as [-> _]. done. }
  assert (Hwin' : forall a c a' c',
            In (a, c) (concat (map calls_of renders)) ->
            In (a', c') (concat (map calls_of renders)) ->
            performance_now c' - performance_now c < 120).
  { intros a c a' c' Hac Hac'.
    destruct (Hin a c Hac) as (rd & Hrd & _ & Ht).
    destruct (Hin a' c' Hac') as (rd' & Hrd' & _ & Ht').
    by apply (Hwin rd rd'). }
  destruct (calls_throttled _ h Hown Hwin') as [Hle Hzero].
  destruct (calls_local _ h Hown) as [Hstorage Hpost].
  split; [done|]. split; [done|].
  split; [by rewrite Hstorage, Hlen|].
  split; [by rewrite Hpost, Hlen|].
  split; [intros a c h0 channel m; apply broadcastAll_network|].
  intros rd h0 Hunjoined. rewrite effects_of_calls. unfold calls_of.
  rewrite Hunjoined, andb_false_r, app_nil_r.
  destruct (timer_changed rd && expired (shown rd)) eqn:He; [|done].
  cbn [broadcast_calls].
  assert (Hr : is_owner (role (shown rd)) = true).
  { apply andb_true_iff in He as [_ He]. unfold expired in He.
    by apply andb_true_iff in He as [_ ?]. }
  rewrite broadcastAll_split by done.
  assert (broadcastRealtime (shown rd) h0 (expiry_clock rd) = (h0, [])) as ->.
  { unfold broadcastRealtime. rewrite Hunjoined. by destruct (roomChannelRef h0). }
  cbn [fst snd]. by rewrite !app_nil_r.
Qed.

Lemma throttle_bound_witness :
  (count is_channel_send
     (snd (effects_all
             [mkRender (Sample.owner_app 1 true true) true
                       (Sample.at_ms 5000) (Sample.at_ms 5001);
              mkRender (Sample.owner_app 0 true true) true
                       (Sample.at_ms 5040) (Sample.at_ms 5041);
              mkRender (expire (Sample.owner_app 0 true true)) true
                       (Sample.at_ms 5044) (Sample.at_ms 5045)]
             Sample.handles)) <= 1)%nat
  /\ count is_storage_set
       (snd (effects_all
               [mkRender (Sample.owner_app 1 true true) true
                         (Sample.at_ms 5000) (Sample.at_ms 5001);
                mkRender (Sample.owner_app 0 true true) true
                         (Sample.at_ms 5040) (Sample.at_ms 5041);
                mkRender (expire (Sample.owner_app 0 true true)) true
                         (Sample.at_ms 5044) (Sample.at_ms 5045)]
               Sample.handles)) = 4%nat.
Proof.
  destruct (throttle_bound
              [mkRender (Sample.owner_app 1 true true) true
                        (Sample.at_ms 5000) (Sample.at_ms 5001);
               mkRender (Sample.owner_app 0 true true) true
                        (Sample.at_ms 5040) (Sample.at_ms 5041);
               mkRender (expire (Sample.owner_app 0 true true)) true
                        (Sample.at_ms 5044) (Sample.at_ms 5045)]
              Sample.handles) as (Hnet & _ & Hstorage & _).
  - intros rd [<- | [<- | [<- | []]]]; by split.
  - intros rd rd' t t' [<- | [<- | [<- | []]]] [<- | [<- | [<- | []]]] Ht Ht';
      cbn in Ht, Ht'; destruct Ht as [<- | [<- | []]];
      destruct Ht' as [<- | [<- | []]]; lia.
  - split; [exact Hnet | exact Hstorage].
Defined.

(** C3, as stated, fails before the join completes: the state changes and
    nothing is sent, not even on the local transports. It fails also in
    a browser without BroadcastChannel, where a joined owner's change is
    written to the storage slot and posted nowhere. *)
Lemma throttle_bound_counterexample :
  (effects_all [mkRender (Sample.owner_app 180 true false) true
                         (Sample.at_ms 5000) (Sample.at_ms 5001)]
               Sample.handles
   = (Sample.handles, [])
   /\ count is_storage_set
        (snd (effects_all [mkRender (Sample.owner_app 180 true false) true
                                    (Sample.at_ms 5000) (Sample.at_ms 5001)]
                          Sample.handles))
      <> length [mkRender (Sample.owner_app 180 true false) true
                          (Sample.at_ms 5000) (Sample.at_ms 5001)])
  /\ (count is_bc_post
        (snd (effects_all [mkRender (Sample.owner_app 179 true true) true
                                    (Sample.at_ms 5000) (Sample.at_ms 5001)]
                          Demo.handles_without_bc))
      <> length [mkRender (Sample.owner_app 179 true true) true
                          (Sample.at_ms 5000) (Sample.at_ms 5001)]
      /\ count is_storage_set
           (snd (effects_all [mkRender (Sample.owner_app 179 true true) true
                                       (Sample.at_ms 5000) (Sample.at_ms 5001)]
                             Demo.handles_without_bc))
         = 1%nat).
Proof.
  split; [split; [reflexivity | discriminate]|].
  split; [discriminate | reflexivity].
Qed.

(** ** The room tag *)

Lemma subscribe_effect_channel (a : App) (h : Handles) :
  roomChannelRef (snd (subscribe_effect true a h)) = Some (roomId a)
  /\ joined (fst (subscribe_effect true a h)) = false
  /\ subscribe_effect false a h = (a, h).
Proof. done. Qed.

(** C9 (amended). Room tag: the envelope posted on the BroadcastChannel
    and the one written to the storage slot carry the session's [roomId]
    next to the five state fields. The message sent on the network channel
    carries the five state fields and no room tag, neither in the message
    nor in its payload: it is addressed by the channel, which was opened
    under the room's name. *)
Theorem room_tag_on_envelopes (a : App) (h : Handles) (c : Clock) (s : Send) :
  (forall channel, roomChannelRef h = Some channel -> channel = roomId a) ->
  In s (snd (broadcastAll a h c)) ->
  match s with
  | BcPost m | StorageSet _ m =>
      prop m "type" = JStr "state" /\ prop m "roomId" = JStr (roomId a)
  | ChannelSend channel m =>
      channel = roomId a
      /\ prop m "roomId" = JUndefined
      /\ prop (prop m "payload") "roomId" = JUndefined
  end
  /\ prop (carried s) "items" = JArr (map js_of_item (items a))
  /\ prop (carried s) "idx" = JNum (idx a)
  /\ prop (carried s) "seconds" = JNum (seconds a)
  /\ prop (carried s) "running" = JBool (running a)
  /\ prop (carried s) "finished" = JBool (finished a).
Proof.
  intros Hch Hs. split; [|by apply broadcastAll_carries with h c].
  destruct (broadcastAll_sends a h c s Hs) as [-> | [-> | (ch & Href & _ & ->)]];
    [done | done |].
  split; [by apply Hch | done].
Qed.

Lemma room_tag_on_envelopes_witness :
  prop (JObj (local_payload (Sample.owner_app 42 true true))) "type" = JStr "state"
  /\ prop (JObj (local_payload (Sample.owner_app 42 true true))) "roomId"
     = JStr "sala1".
Proof.
  apply (room_tag_on_envelopes (Sample.owner_app 42 true true) Sample.handles
           (Sample.at_ms 5000)
           (BcPost (JObj (local_payload (Sample.owner_app 42 true true))))).
  - intros channel [= <-]. reflexivity.
  - left. reflexivity.
Defined.

(** C9, as stated, fails on the network leg: the message is sent and holds
    no room tag. *)
Lemma room_tag_counterexample :
  In (ChannelSend "sala1" (realtime_message (Sample.owner_app 42 true true)))
     (snd (broadcastAll (Sample.owner_app 42 true true) Sample.handles
                        (Sample.at_ms 5000)))
  /\ prop (realtime_message (Sample.owner_app 42 true true)) "roomId"
     = JUndefined
  /\ prop (prop (realtime_message (Sample.owner_app 42 true true)) "payload")
          "roomId"
     <> JStr (roomId (Sample.owner_app 42 true true)).
Proof.
  split; [|split; [reflexivity | discriminate]].
  cbn. right. right. by left.
Qed.

(** ** Expiry *)

Lemma expire_state (a : App) :
  expired a = true ->
  expire a = setFinished true (setRunning false a)
  /\ running (expire a) = false /\ finished (expire a) = true
  /\ items (expire a) = items a /\ idx (expire a) = idx a
  /\ seconds (expire a) = seconds a /\ expired (expire a) = false.
Proof.
  intros He. unfold expire. rewrite He. cbn. repeat split.
  unfold expired. cbn. by rewrite andb_false_r.
Qed.

(** With the channel not joined, the only thing the expiry sends is what
    its own [broadcastAll] call sends, and that call reads the values of
    the render in which the countdown was found at zero. *)
Lemma expiry_cascade_unjoined (a : App) (h : Handles) (c1 c2 c3 c4 : Clock) :
  expired a = true -> joined a = false ->
  expiry_cascade a h c1 c2 c3 c4 = (expire a, h, broadcastLocal a h c1).
Proof.
  intros He Hj. destruct (expire_state a He) as (Hx & _ & _ & _ & _ & _ & He').
  unfold expiry_cascade, run_effects, expiry_effect. rewrite He.
  assert (Hall : broadcastAll a h c1 = (h, broadcastLocal a h c1)).
  { unfold broadcastAll, broadcastRealtime, expired in *.
    destruct (is_owner (role a)); [|by rewrite andb_false_r in He].
    cbn. destruct (roomChannelRef h); rewrite ?Hj; cbn; by rewrite app_nil_r. }
  rewrite Hall, publish_effect_unjoined by done.
  fold (expire a) in *. rewrite <- Hx, He'.
  rewrite publish_effect_unjoined by (rewrite Hx; done).
  by rewrite !app_nil_r.
Qed.

(** Once joined, the snapshot with the game finished is published, third
    in line, after two publications of the state before it. *)
Lemma expiry_cascade_joined (a : App) (h : Handles) (c1 c2 c3 c4 : Clock) :
  expired a = true -> joined a = true ->
  snd (expiry_cascade a h c1 c2 c3 c4)
  = snd (broadcastAll a h c1)
    ++ snd (broadcastAll a (fst (broadcastAll a h c1)) c2)
    ++ snd (broadcastAll (expire a)
              (fst (broadcastAll a (fst (broadcastAll a h c1)) c2)) c4).
Proof.
  intros He Hj. destruct (expire_state a He) as (Hx & _ & _ & _ & _ & _ & He').
  assert (Hr : is_owner (role a) = true).
  { unfold expired in He. by destruct (is_owner (role a)); [|rewrite andb_false_r in He]. }
  unfold expiry_cascade, run_effects, expiry_effect. rewrite He.
  destruct (broadcastAll a h c1) as [h1 sent1]; cbn [fst snd].
  unfold publish_effect at 1. rewrite Hr, Hj. cbn [andb].
  destruct (broadcastAll a h1 c2) as [h2 sent2]; cbn [fst snd].
  rewrite <- Hx, He'.
  unfold publish_effect. rewrite Hx. cbn [role joined setFinished setRunning].
  rewrite Hr, Hj. cbn [andb]. rewrite <- Hx.
  destruct (broadcastAll (expire a) h2 c4) as [h3 sent3]; cbn [fst snd].
  by rewrite app_nil_l, app_assoc.
Qed.

(** C7. The owner does move to not running and finished, but with the
    channel not joined the one snapshot the expiry publishes is the state
    before that move: running, not finished. *)
Theorem expiry_publishes_stale_snapshot :
  fst (fst (expiry_cascade Sample.countdown_over Sample.handles
              (Sample.at_ms 5000) (Sample.at_ms 5001)
              (Sample.at_ms 5004) (Sample.at_ms 5005)))
  = setFinished true (setRunning false Sample.countdown_over)
  /\ snd (expiry_cascade Sample.countdown_over Sample.handles
            (Sample.at_ms 5000) (Sample.at_ms 5001)
            (Sample.at_ms 5004) (Sample.at_ms 5005))
     = broadcastLocal Sample.countdown_over Sample.handles (Sample.at_ms 5000)
  /\ forall s,
       In s (snd (expiry_cascade Sample.countdown_over Sample.handles
                    (Sample.at_ms 5000) (Sample.at_ms 5001)
                    (Sample.at_ms 5004) (Sample.at_ms 5005))) ->
       prop (carried s) "running" = JBool true
       /\ prop (carried s) "finished" = JBool false.
Proof.
  rewrite expiry_cascade_unjoined by reflexivity.
  split; [reflexivity|]. split; [reflexivity|].
  intros s [<- | [<- | []]]; by split.
Qed.

(** Once joined, the finished snapshot does reach the local transports,
    after two copies of the state before it; on the network, where the
    first copy has just been accepted, the throttle drops it. *)
Example expiry_joined_sends :
  map (fun s => (is_channel_send s, prop (carried s) "finished"))
      (snd (expiry_cascade (Sample.owner_app 0 true true) Sample.handles
              (Sample.at_ms 5000) (Sample.at_ms 5001)
              (Sample.at_ms 5004) (Sample.at_ms 5005)))
  = [(false, JBool false); (false, JBool false); (true, JBool false);
     (false, JBool false); (false, JBool false);
     (false, JBool true); (false, JBool true)].
Proof. reflexivity. Qed.

(** * Further properties of the code *)

(** ** Scores *)

Lemma count_status_insert (s : Status) (l : list PlayItem) :
  forall (i : nat) (x y : PlayItem),
    l !! i = Some x ->
    (count_status s (<[i := y]> l) + (if has_status s x then 1 else 0)
     = count_status s l + (if has_status s y then 1 else 0))%nat.
Proof.
  unfold count_status.
  induction l as [|p l IH]; intros i x y Hx; [done|].
  destruct i as [|i]; cbn in Hx |- *.
  - injection Hx as ->.
    destruct (has_status s x), (has_status s y); cbn; lia.
  - specialize (IH i x y Hx). destruct (has_status s p) eqn:Hp; cbn;
      [f_equal|]; exact IH.
Qed.

Lemma item_at_lookup (l : list PlayItem) (j : Z) (x : PlayItem) :
  item_at l j = Some x -> 0 <= j < Z.of_nat (length l) /\ l !! Z.to_nat j = Some x.
Proof.
  unfold item_at. destruct (Z.ltb_spec j 0); [discriminate|].
  intros Hx. split; [|done]. apply lookup_lt_Some in Hx. lia.
Qed.

(** What [mark] does when it does something: the item read, the index
    computed, the two updates. *)
Lemma mark_marks (st : Status) (a : App) (cur : PlayItem) :
  role a = Owner -> finished a = false ->
  item_at (items a) (idx a) = Some cur ->
  exists j,
    nextIndex (items a) (idx a) = Some j
    /\ mark st a
       = Some (setIdx j (setItems (<[Z.to_nat (idx a) := with_status cur st]> (items a)) a)).
Proof.
  intros Hr Hf Hcur. destruct (item_at_lookup _ _ _ Hcur) as [Hidx _].
  destruct (nextIndex_in_range _ _ Hidx) as (j & Hj & _).
  exists j. split; [done|]. unfold mark. rewrite Hr, Hf, Hcur, Hj. cbn.
  destruct (items a); [cbn in Hidx; lia | done].
Qed.

(** X1. Marking moves exactly one unit of the tally: the count of every
    status loses the current item's old status and gains the new one, and
    the number of items stays. In particular a right answer on an item
    not yet counted as right adds one to the score. *)
Theorem mark_moves_one_point (st : Status) (a : App) (cur : PlayItem) :
  role a = Owner -> finished a = false ->
  item_at (items a) (idx a) = Some cur ->
  exists a',
    mark st a = Some a'
    /\ length (items a') = length (items a)
    /\ (forall s,
          (count_status s (items a') + (if has_status s cur then 1 else 0)
           = count_status s (items a)
             + (if has_status s (with_status cur st) then 1 else 0))%nat)
    /\ (st = Bien -> status cur <> Bien -> score a' = S (score a)).
Proof.
  intros Hr Hf Hcur.
  destruct (mark_marks st a cur Hr Hf Hcur) as (j & _ & Hmark).
  destruct (item_at_lookup _ _ _ Hcur) as [_ Hlook].
  eexists. split; [exact Hmark|]. cbn [items setIdx setItems].
  assert (Hcount : forall s,
            (count_status s (<[Z.to_nat (idx a) := with_status cur st]> (items a))
             + (if has_status s cur then 1 else 0)
             = count_status s (items a)
               + (if has_status s (with_status cur st) then 1 else 0))%nat)
    by (intros s; by apply count_status_insert).
  split; [by rewrite length_insert|]. split; [exact Hcount|].
  intros -> Hnot. unfold score. cbn [items setIdx setItems].
  specialize (Hcount Bien). unfold has_status in Hcount. cbn in Hcount.
  destruct (status cur); try done; lia.
Qed.

Lemma mark_moves_one_point_witness :
  exists a',
    mark Bien (Sample.owner_app 180 true true) = Some a'
    /\ score a' = S (score (Sample.owner_app 180 true true)).
Proof.
  destruct (mark_moves_one_point Bien (Sample.owner_app 180 true true)
              (Sample.played "A" Empieza "Fruta roja o verde" "arandano" Pendiente))
    as (a' & Hmark & _ & _ & Hscore);
    [reflexivity | reflexivity | reflexivity |].
  exists a'. split; [exact Hmark|]. apply Hscore; [reflexivity | discriminate].
Defined.

Lemma count_status_cons (s : Status) (p : PlayItem) (l : list PlayItem) :
  count_status s (p :: l)
  = ((if has_status s p then 1 else 0) + count_status s l)%nat.
Proof. unfold count_status. cbn. by destruct (has_status s p). Qed.

Lemma count_status_all (l : list PlayItem) :
  (count_status Bien l + count_status Mal l + count_status Pasada l
   + count_status Pendiente l = length l)%nat.
Proof.
  induction l as [|p l IH]; [done|].
  rewrite !count_status_cons. unfold has_status.
  destruct (status p); cbn [length]; lia.
Qed.

Lemma count_status_pending (l : list PlayItem) (s : Status) :
  count_status s (map (fun x => with_status x Pendiente) l)
  = match s with Pendiente => length l | _ => 0%nat end.
Proof.
  induction l as [|p l IH]; [by destruct s|].
  cbn [map]. rewrite count_status_cons, IH. by destruct s.
Qed.

(** X2. The figures of the result panel add up: right, wrong, passed and
    pending answers make the number of items, in every state; and after
    the owner's reset the first three are zero, with the questions
    themselves as they were. *)
Theorem tally_adds_up (a : App) :
  (score a + wrong a + passed a + count_status Pendiente (items a)
   = length (items a))%nat
  /\ (role a = Owner ->
      score (reset a) = 0%nat /\ wrong (reset a) = 0%nat
      /\ passed (reset a) = 0%nat
      /\ map base (items (reset a)) = map base (items a)
      /\ length (items (reset a)) = length (items a)).
Proof.
  split; [apply count_status_all|].
  intros Hr. unfold score, wrong, passed, reset. rewrite Hr.
  cbn [is_owner negb items setItems setIdx setSeconds setFinished setRunning].
  rewrite !count_status_pending, length_map, map_map.
  by repeat split.
Qed.

(** ** What the operations leave alone *)

Lemma map_base_insert (st : Status) (l : list PlayItem) :
  forall (i : nat) (cur : PlayItem),
    l !! i = Some cur ->
    map base (<[i := with_status cur st]> l) = map base l.
Proof.
  induction l as [|p l IH]; intros i cur Hcur; [done|].
  destruct i as [|i]; cbn in Hcur |- *.
  - by injection Hcur as ->.
  - f_equal. by apply IH.
Qed.

(** The outcomes of [mark], with no assumption on the state. *)
Lemma mark_cases (st : Status) (a a' : App) :
  mark st a = Some a' ->
  a' = a
  \/ exists cur j,
       role a = Owner /\ finished a = false
       /\ item_at (items a) (idx a) = Some cur
       /\ nextIndex (items a) (idx a) = Some j
       /\ a' = setIdx j (setItems (<[Z.to_nat (idx a) := with_status cur st]> (items a)) a).
Proof.
  unfold mark. destruct (role a) eqn:Hr; cbn; [|intros [= <-]; by left].
  destruct (finished a) eqn:Hf; [intros [= <-]; by left|].
  destruct (items a) eqn:Hitems; [intros [= <-]; by left|]. rewrite <- Hitems.
  destruct (item_at (items a) (idx a)) as [cur|] eqn:Hcur; [|discriminate].
  destruct (nextIndex (items a) (idx a)) as [j|] eqn:Hj; [|discriminate].
  intros [= <-]. right. by exists cur, j.
Qed.

Section StepFacts.
Context {rt : Runtime}.

(** X3. The questions are fixed between loads: no operation changes the
    session's role or room, and every operation other than a bank load
    keeps the number of items and each item's letter, rule, prompt and
    answer; only statuses move. *)
Theorem questions_fixed (o : Op) (a a' : App) :
  step o a = Some a' ->
  role a' = role a /\ roomId a' = roomId a
  /\ match o with
     | OpLoadUrl _ _ _ | OpLoadFile _ _ => True
     | _ => map base (items a') = map base (items a)
            /\ length (items a') = length (items a)
     end.
Proof.
  intros Hstep. destruct o; cbn in Hstep; try (injection Hstep as <-).
  - unfold start. by destruct (is_owner (role a)).
  - unfold pause. by destruct (is_owner (role a)).
  - unfold reset. destruct (negb (is_owner (role a))); [done|].
    cbn. rewrite map_map, length_map. done.
  - destruct (mark_cases st a a' Hstep) as [-> | (cur & j & _ & _ & Hcur & _ & ->)];
      [done|].
    destruct (item_at_lookup _ _ _ Hcur) as [_ Hlook]. cbn.
    by rewrite (map_base_insert st _ _ _ Hlook), length_insert.
  - unfold adjustTimer, setTimer. by destruct (negb (is_owner (role a))).
  - unfold applyTimerInput, setTimer.
    destruct parsed; [|done]. by destruct (negb (is_owner (role a))).
  - unfold loadFromUrl. destruct (try_url r); [done|]. by destruct silent.
  - unfold loadFromFile. by destruct (try_file r).
  - unfold tick.
    by destruct (negb (is_owner (role a)) || negb (running a) || finished a).
  - unfold expire. by destruct (expired a).
  - done.
  - done.
Qed.

(** X4. Only the countdown ends a game and only [start] sets it
    running: an operation that leaves the game finished found it finished
    or is the expiry of a running owner's countdown at zero, and one that
    leaves it running found it running or is the owner's [start]. Marking
    the last open item does not finish the game. *)
Theorem finished_only_by_expiry (o : Op) (a a' : App) :
  step o a = Some a' ->
  (finished a' = true ->
   finished a = true
   \/ (o = OpExpire /\ seconds a = 0 /\ running a = true /\ role a = Owner))
  /\ (running a' = true ->
      running a = true \/ (o = OpStart /\ role a = Owner)).
Proof.
  intros Hstep. destruct o; cbn in Hstep; try (injection Hstep as <-).
  - unfold start. destruct (role a) eqn:Hr; cbn; intuition congruence.
  - unfold pause. destruct (is_owner (role a)); cbn; intuition congruence.
  - unfold reset. destruct (negb (is_owner (role a))); cbn; intuition congruence.
  - destruct (mark_cases st a a' Hstep) as [-> | (cur & j & _ & _ & _ & _ & ->)];
      cbn; intuition congruence.
  - unfold adjustTimer, setTimer.
    destruct (negb (is_owner (role a))); cbn; intuition congruence.
  - unfold applyTimerInput, setTimer.
    destruct parsed; [destruct (negb (is_owner (role a)))|]; cbn;
      intuition congruence.
  - unfold loadFromUrl. destruct (try_url r); [|destruct silent]; cbn;
      intuition congruence.
  - unfold loadFromFile. destruct (try_file r); cbn; intuition congruence.
  - unfold tick.
    destruct (negb (is_owner (role a)) || negb (running a) || finished a); cbn;
      intuition congruence.
  - unfold expire, expired.
    destruct (Z.eqb_spec (seconds a) 0) as [Hz|]; cbn; [|intuition congruence].
    destruct (running a) eqn:Hrun; cbn; [|intuition congruence].
    destruct (role a) eqn:Hr; cbn; intuition congruence.
  - cbn. intuition congruence.
  - cbn. intuition congruence.
Qed.

End StepFacts.

Lemma questions_fixed_witness :
  role Sample.all_answered = role Sample.last_question
  /\ roomId Sample.all_answered = roomId Sample.last_question
  /\ map base (items Sample.all_answered) = map base (items Sample.last_question)
  /\ length (items Sample.all_answered) = length (items Sample.last_question).
Proof.
  apply (questions_fixed (rt := Sample.runtime) (OpMark Bien)
           Sample.last_question Sample.all_answered).
  reflexivity.
Defined.

Lemma finished_only_by_expiry_witness :
  (finished Sample.all_answered = true ->
   finished Sample.last_question = true
   \/ (OpMark Bien = OpExpire /\ seconds Sample.last_question = 0
       /\ running Sample.last_question = true
       /\ role Sample.last_question = Owner))
  /\ (running Sample.all_answered = true ->
      running Sample.last_question = true
      \/ (OpMark Bien = OpStart /\ role Sample.last_question = Owner)).
Proof.
  apply (finished_only_by_expiry (rt := Sample.runtime) (OpMark Bien)
           Sample.last_question Sample.all_answered).
  reflexivity.
Defined.

(** ** The countdown, tick by tick *)

Lemma ticks_count_down (n : nat) (a : App) :
  role a = Owner -> running a = true -> finished a = false ->
  Z.of_nat n <= seconds a <= 2 ^ 53 ->
  Nat.iter n tick a = setSeconds (seconds a - Z.of_nat n) a.
Proof.
  intros Hr Hrun Hf. induction n as [|n IH]; intros Hn.
  - cbn. rewrite Z.sub_0_r. by destruct a.
  - rewrite Nat.iter_succ, IH by lia. unfold tick. cbn. rewrite Hr, Hrun, Hf. cbn.
    destruct (Z.gtb_spec (seconds a - Z.of_nat n) 0); [|lia].
    rewrite minus_one_exact by lia.
    unfold setSeconds. cbn. f_equal. lia.
Qed.

(** X5. A running game of at most [2^53] seconds left alone for as many
    ticks as it has seconds reaches zero with everything else untouched;
    the expiry then stops it and marks it finished, and from there on
    ticks and marks do nothing. *)
Theorem countdown_runs_out (a : App) :
  role a = Owner -> running a = true -> finished a = false ->
  0 <= seconds a <= 2 ^ 53 ->
  Nat.iter (Z.to_nat (seconds a)) tick a = setSeconds 0 a
  /\ expired (setSeconds 0 a) = true
  /\ expire (setSeconds 0 a) = setFinished true (setRunning false (setSeconds 0 a))
  /\ tick (expire (setSeconds 0 a)) = expire (setSeconds 0 a)
  /\ (forall st, mark st (expire (setSeconds 0 a)) = Some (expire (setSeconds 0 a))).
Proof.
  intros Hr Hrun Hf Hs.
  assert (He : expired (setSeconds 0 a) = true)
    by (unfold expired; cbn; by rewrite Hr, Hrun).
  split; [rewrite ticks_count_down by (try done; lia); f_equal; lia|].
  split; [done|].
  unfold expire. rewrite He.
  split; [done|]. split.
  - unfold tick. cbn. by rewrite Hr.
  - intros st. unfold mark. cbn. by rewrite Hr.
Qed.

Lemma countdown_runs_out_witness :
  Nat.iter (Z.to_nat (seconds (Sample.owner_app 3 true true))) tick
           (Sample.owner_app 3 true true)
  = Sample.owner_app 0 true true
  /\ expire (Sample.owner_app 0 true true)
     = setFinished true (setRunning false (Sample.owner_app 0 true true)).
Proof.
  destruct (countdown_runs_out (Sample.owner_app 3 true true))
    as (Hticks & _ & Hexpire & _); [reflexivity | reflexivity | reflexivity | cbn; lia |].
  split; [exact Hticks | exact Hexpire].
Defined.

(** X6. [start] does not look at the countdown: it clears [finished] and
    sets [running] with the seconds as they are, so that starting with no
    time left (a game that ran out, or a timer set to zero) is followed
    at once by the expiry, which finishes the game again. *)
Theorem start_with_no_time_left (a : App) :
  role a = Owner -> seconds a = 0 ->
  running (start a) = true /\ finished (start a) = false
  /\ seconds (start a) = 0
  /\ expired (start a) = true
  /\ running (expire (start a)) = false /\ finished (expire (start a)) = true.
Proof.
  intros Hr Hs. unfold expire, expired, start. rewrite Hr. cbn.
  by rewrite Hs, Hr.
Qed.

Lemma start_with_no_time_left_witness :
  running (start (setFinished true (Sample.owner_app 0 false true))) = true
  /\ finished (start (setFinished true (Sample.owner_app 0 false true))) = false
  /\ seconds (start (setFinished true (Sample.owner_app 0 false true))) = 0
  /\ expired (start (setFinished true (Sample.owner_app 0 false true))) = true
  /\ running (expire (start (setFinished true (Sample.owner_app 0 false true)))) = false
  /\ finished (expire (start (setFinished true (Sample.owner_app 0 false true)))) = true.
Proof.
  apply (start_with_no_time_left (setFinished true (Sample.owner_app 0 false true)));
    reflexivity.
Defined.

(** X7. The timer field: what is typed is clamped to [0, 3600] for the
    countdown but stored as it is for the default, so the next reset puts
    the typed value itself on the countdown, below zero or above the hour
    as it may be. *)
Theorem typed_default_is_not_clamped (p : Z) (a : App) :
  role a = Owner ->
  0 <= seconds (applyTimerInput (Some p) a) <= 3600
  /\ seconds (applyTimerInput (Some p) a) = clamp p 0 3600
  /\ defaultSeconds (applyTimerInput (Some p) a) = p
  /\ seconds (reset (applyTimerInput (Some p) a)) = p
  /\ (forall delta, 0 <= seconds (adjustTimer delta a) <= 3600).
Proof.
  intros Hr. unfold applyTimerInput, adjustTimer, setTimer, reset, clamp.
  rewrite Hr. cbn. rewrite Hr. cbn. repeat split; try lia.
Qed.

Lemma typed_default_is_not_clamped_witness :
  0 <= seconds (applyTimerInput (Some 7200) (Sample.owner_app 50 false true)) <= 3600
  /\ seconds (applyTimerInput (Some 7200) (Sample.owner_app 50 false true))
     = clamp 7200 0 3600
  /\ defaultSeconds (applyTimerInput (Some 7200) (Sample.owner_app 50 false true))
     = 7200
  /\ seconds (reset (applyTimerInput (Some 7200) (Sample.owner_app 50 false true)))
     = 7200
  /\ (forall delta,
        0 <= seconds (adjustTimer delta (Sample.owner_app 50 false true)) <= 3600).
Proof.
  apply (typed_default_is_not_clamped 7200 (Sample.owner_app 50 false true)).
  reflexivity.
Defined.

(** X8. A player session is read-only: the game operations and the
    countdown leave its state as it is, and it publishes nothing. *)
Theorem player_is_read_only (a : App) :
  role a = Player ->
  start a = a /\ pause a = a /\ reset a = a
  /\ (forall st, mark st a = Some a)
  /\ (forall delta, adjustTimer delta a = a)
  /\ tick a = a /\ expire a = a
  /\ (forall h c, broadcastAll a h c = (h, []))
  /\ (forall h c, publish_effect a h c = (h, []))
  /\ (forall h c, expiry_effect a h c = (a, h, [])).
Proof.
  intros Hr.
  unfold start, pause, reset, mark, adjustTimer, setTimer, tick, expire,
    expiry_effect, expired, broadcastAll, publish_effect.
  rewrite Hr. cbn. rewrite !andb_false_r. by repeat split.
Qed.

Lemma player_is_read_only_witness :
  start (initial Player "sala1" 180) = initial Player "sala1" 180
  /\ reset (initial Player "sala1" 180) = initial Player "sala1" 180
  /\ tick (initial Player "sala1" 180) = initial Player "sala1" 180.
Proof.
  destruct (player_is_read_only (initial Player "sala1" 180))
    as (Hstart & _ & Hreset & _ & _ & Htick & _); [reflexivity|].
  split; [exact Hstart|]. split; [exact Hreset | exact Htick].
Defined.

(** ** The current item *)

Lemma is_open_nonempty (l : list PlayItem) (j : Z) : is_open l j = true -> l <> [].
Proof.
  intros Hj ->. unfold is_open, item_at in Hj.
  destruct (j <? 0); [done|]. by rewrite lookup_nil in Hj.
Qed.

Lemma first_is_open (l : list PlayItem) :
  l <> [] -> Forall (fun p => status p = Pendiente) l -> is_open l 0 = true.
Proof.
  destruct l as [|p l]; [done|]. intros _ Hall.
  apply Forall_inv in Hall. change (open_status (status p) = true).
  by rewrite Hall.
Qed.

(** After a mark the index is on an open item, unless none is left. *)
Lemma mark_lands_open (st : Status) (a a' : App) :
  valid_index a -> mark st a = Some a' ->
  a' = a
  \/ is_open (items a') (idx a') = true
  \/ forall j, is_open (items a') j = false.
Proof.
  intros Hvalid Hmark.
  destruct (mark_cases st a a' Hmark) as [-> | (cur & j & _ & _ & Hcur & Hj & ->)];
    [by left|]. right. cbn [items idx setIdx setItems].
  destruct (item_at_lookup _ _ _ Hcur) as [Hidx _].
  destruct (nextIndex_scan (items a) (idx a) Hidx)
    as [(k & Hk & Hnext & Hopen & Hbefore) | [Hnext Hnone]];
    rewrite Hnext in Hj; injection Hj as <-.
  - destruct (Z.eq_dec k (Z.of_nat (length (items a)))) as [-> | Hshort].
    + rewrite full_turn by done.
      destruct (scan_back_home a st cur Hidx Hbefore) as [(k & _ & _ & Hhome & _) | Hno];
        [by left | by right].
    + left. rewrite (open_elsewhere a st cur Hidx) by (apply shorter_turn; lia).
      done.
  - destruct (scan_back_home a st cur Hidx) as [(k & _ & _ & Hhome & _) | Hno];
      [intros k' Hk'; apply Hnone; lia | by left | by right].
Qed.

Section CurrentItem.
Context {rt : Runtime}.

Lemma mapped_all_pending data :
  Forall (fun p => status p = Pendiente) (mapped data).
Proof. unfold mapped. apply Forall_map. by apply Forall_forall. Qed.

Lemma step_keeps_on_open_item o a a' :
  valid_index a -> on_open_item a -> step o a = Some a' -> on_open_item a'.
Proof.
  unfold on_open_item. intros Hvalid Hopen Hstep.
  destruct o; cbn in Hstep;
    try (destruct (mark_lands_open st a a' Hvalid Hstep) as [-> | [Hyes | Hno]];
         [done | done | intros [j Hj]; by rewrite Hno in Hj]);
    injection Hstep as <-.
  - unfold start. by destruct (is_owner (role a)).
  - unfold pause. by destruct (is_owner (role a)).
  - unfold reset. destruct (negb (is_owner (role a))); [done|]. cbn.
    intros [j Hj]. apply first_is_open; [by apply is_open_nonempty with j|].
    apply Forall_map. by apply Forall_forall.
  - unfold adjustTimer, setTimer. by destruct (negb (is_owner (role a))).
  - unfold applyTimerInput, setTimer.
    destruct parsed; [|done]. by destruct (negb (is_owner (role a))).
  - unfold loadFromUrl. destruct (try_url r) as [e|m] eqn:Hm.
    + cbn. intros [j Hj]. by apply is_open_nonempty in Hj.
    + assert (Hall : Forall (fun p => status p = Pendiente) m).
      { destruct r; cbn in Hm; try discriminate.
        apply nonempty_or_throw_inr in Hm as [-> _]. apply mapped_all_pending. }
      destruct silent; cbn; intros [j Hj];
        (apply first_is_open; [by apply is_open_nonempty with j | done]).
  - unfold loadFromFile. destruct (try_file r) as [e|m] eqn:Hm; [done|].
    assert (Hall : Forall (fun p => status p = Pendiente) m).
    { destruct r; cbn in Hm; try discriminate.
      apply nonempty_or_throw_inr in Hm as [-> _]. apply mapped_all_pending. }
    cbn. intros [j Hj].
    apply first_is_open; [by apply is_open_nonempty with j | done].
  - unfold tick.
    by destruct (negb (is_owner (role a)) || negb (running a) || finished a).
  - unfold expire. by destruct (expired a).
  - done.
  - done.
Qed.

(** X9. The owner never rests on an answered question while an open one
    remains: in every reachable state, if some item is pending or
    skipped, the current item is. *)
Theorem current_item_is_open (room : string) (d0 : Z) (a : App) :
  reachable room d0 a ->
  (exists j, is_open (items a) j = true) ->
  is_open (items a) (idx a) = true.
Proof.
  intros Hreach.
  assert (H : valid_index a /\ on_open_item a); [|by destruct H].
  induction Hreach as [|o a a' Hreach [IHv IHo] Hstep].
  - split; [by intros []|]. intros [j Hj]. by apply is_open_nonempty in Hj.
  - split.
    + eapply step_preserves; [|exact Hstep]. split; [|done].
      by apply (reachable_invariant room d0 a).
    + by apply step_keeps_on_open_item with o a.
Qed.

End CurrentItem.

Lemma current_item_is_open_witness :
  is_open (items Sample.first_answered) (idx Sample.first_answered) = true.
Proof.
  apply (current_item_is_open (rt := Sample.runtime) "sala1" 180).
  - apply reach_step with (OpMark Bien)
      (mkApp Owner "sala1" Sample.two_items 0 true false
             (Some BankLoadedFromFile) 180 180 false); [|reflexivity].
    apply reach_step with OpStart
      (mkApp Owner "sala1" Sample.two_items 0 false false
             (Some BankLoadedFromFile) 180 180 false); [|reflexivity].
    apply reach_step with (OpLoadFile (FileJson Sample.bank) 180)
      (initial Owner "sala1" 180); [|reflexivity].
    apply reach_initial.
  - exists 1. reflexivity.
Defined.

(** ** From the owner to the players *)


Section SyncFacts.
Context {rt : Runtime}.
Import Observer.


(** X11. Network sync end to end: the message an owner sends on the
    channel makes every player that receives it show the owner's state,
    with no look at a room, and changes nothing in an owner that receives
    it. *)
Theorem network_sync (a : App) (h : Handles) (c : Clock) (channel : string)
    (m : JsValue) (r : Replica) :
  In (ChannelSend channel m) (snd (broadcastAll a h c)) ->
  onBroadcast Player m r = snapshot a
  /\ onBroadcast Owner m r = r
  /\ roomChannelRef h = Some channel /\ joined a = true.
Proof.
  intros Hm.
  destruct (broadcastAll_sends a h c _ Hm) as [[=] | [[=] | (ch & Hch & Hj & [= -> ->])]].
  by repeat split.
Qed.

(** X12. What the storage listener lets pass unnoticed: an event of
    another key, a removed or empty value, a text that is not JSON, the
    JSON [null], and a document whose [type] is not ["state"]; likewise
    the BroadcastChannel listener for a falsy message or another type. *)
Theorem ignored_events (room : string) (e : StorageEvent) (m : JsValue)
    (r : Replica) :
  (key e <> Some "rosco-sync" -> onStorage room e r = r)
  /\ (newValue e = None \/ newValue e = Some "" -> onStorage room e r = r)
  /\ (forall text, newValue e = Some text ->
        JSON_parse text = None \/ JSON_parse text = Some JNull
        \/ (exists d, JSON_parse text = Some d /\ prop d "type" <> JStr "state") ->
        onStorage room e r = r)
  /\ (truthy m = false \/ prop m "type" <> JStr "state" -> onMsg room m r = r).
Proof.
  assert (Htype : forall d, prop d "type" <> JStr "state" ->
                            is_str (prop d "type") "state" = false).
  { intros d Hd. destruct (is_str (prop d "type") "state") eqn:E; [|done].
    by apply is_str_true in E. }
  split; [|split; [|split]].
  - intros Hk. unfold onStorage. destruct (newValue e) as [text|]; [|done].
    assert (key_is (key e) "rosco-sync" = false) as ->; [|done].
    destruct (key e) as [k|]; [|done]. cbn.
    destruct (String.eqb_spec k "rosco-sync"); congruence.
  - intros [Hv | Hv]; unfold onStorage; rewrite Hv; [done|].
    by rewrite andb_false_r.
  - intros text Hv Hcases. unfold onStorage. rewrite Hv.
    destruct (key_is (key e) "rosco-sync" && negb (text =? "")%string); [|done].
    destruct Hcases as [-> | [-> | (d & -> & Hd)]]; [done | done |].
    destruct (nullish d); [done|]. by rewrite Htype.
  - intros [Hm | Hm]; unfold onMsg; [by rewrite Hm|].
    by rewrite Htype, orb_true_r.
Qed.

(** X13. No handler ever updates part of the replica: after any message,
    on any of the three paths, the replica is what it was or holds
    exactly the five fields of the message. *)
Theorem no_partial_update (room : string) (role : Role) (m : JsValue)
    (e : StorageEvent) (r : Replica) :
  (onMsg room m r = r \/ onMsg room m r = fields_of m)
  /\ (onBroadcast role m r = r
      \/ onBroadcast role m r = fields_of (prop m "payload"))
  /\ (onStorage room e r = r
      \/ exists text d,
           newValue e = Some text /\ JSON_parse text = Some d
           /\ onStorage room e r = fields_of d).
Proof.
  destruct (handlers_keep_or_replace room role m r) as [Hmsg Hnet].
  split; [done|]. split; [done|].
  unfold onStorage. destruct (newValue e) as [text|]; [|by left].
  destruct (key_is (key e) "rosco-sync" && negb (text =? "")%string); [|by left].
  destruct (JSON_parse text) as [d|] eqn:Hd; [|by left].
  destruct (nullish d); [by left|].
  destruct (is_str (prop d "type") "state"
            && (negb (truthy (prop d "roomId")) || is_str (prop d "roomId") room));
    [|by left].
  right. by exists text, d.
Qed.

End SyncFacts.


Lemma network_sync_witness :
  Observer.onBroadcast Player (realtime_message (Sample.owner_app 42 true true))
                       Sample.replica
  = snapshot (Sample.owner_app 42 true true).
Proof.
  apply (network_sync (Sample.owner_app 42 true true) Sample.handles
           (Sample.at_ms 5000) "sala1").
  cbn. right. right. by left.
Defined.

(** ** The throttle, send by send *)

Lemma broadcastRealtime_accepted (a : App) (h : Handles) (c : Clock)
    (channel : string) :
  roomChannelRef h = Some channel -> joined a = true ->
  120 <= performance_now c - lastSentRef h ->
  broadcastRealtime a h c
  = (setLastSent (performance_now c) h, [ChannelSend channel (realtime_message a)]).
Proof.
  intros Hch Hj Hlate.
  destruct (broadcastRealtime_cases a h c) as [Hno | (ch & Hch' & _ & _ & ->)].
  - unfold broadcastRealtime in Hno. rewrite Hch, Hj in Hno. cbn in Hno.
    destruct (Z.ltb_spec (performance_now c - lastSentRef h) 120); [lia|].
    discriminate.
  - congruence.
Qed.

(** X14. Accepted network sends are at least 120 ms apart: once a send
    has been accepted, a call less than 120 ms later sends nothing and
    leaves the time stamp, and a call 120 ms later or more is accepted in
    its turn (the channel being joined). *)
Theorem throttle_spacing (a a' : App) (h : Handles) (c c' : Clock)
    (channel : string) :
  roomChannelRef h = Some channel -> joined a = true -> joined a' = true ->
  120 <= performance_now c - lastSentRef h ->
  broadcastRealtime a h c
  = (setLastSent (performance_now c) h, [ChannelSend channel (realtime_message a)])
  /\ (performance_now c' - performance_now c < 120 ->
      broadcastRealtime a' (setLastSent (performance_now c) h) c'
      = (setLastSent (performance_now c) h, []))
  /\ (120 <= performance_now c' - performance_now c ->
      broadcastRealtime a' (setLastSent (performance_now c) h) c'
      = (setLastSent (performance_now c') h,
         [ChannelSend channel (realtime_message a')])).
Proof.
  intros Hch Hj Hj' Hlate. unfold broadcastRealtime. cbn. rewrite Hch, Hj, Hj'. cbn.
  destruct (Z.ltb_spec (performance_now c - lastSentRef h) 120); [lia|].
  split; [done|]. split; intros Hc';
    destruct (Z.ltb_spec (performance_now c' - performance_now c) 120); try lia; done.
Qed.

Lemma throttle_spacing_witness :
  broadcastRealtime (Sample.owner_app 42 true true) Sample.handles (Sample.at_ms 5000)
  = (setLastSent 5000 Sample.handles,
     [ChannelSend "sala1" (realtime_message (Sample.owner_app 42 true true))])
  /\ broadcastRealtime (Sample.owner_app 41 true true)
       (setLastSent 5000 Sample.handles) (Sample.at_ms 5119)
     = (setLastSent 5000 Sample.handles, [])
  /\ broadcastRealtime (Sample.owner_app 41 true true)
       (setLastSent 5000 Sample.handles) (Sample.at_ms 5120)
     = (setLastSent 5120 Sample.handles,
        [ChannelSend "sala1" (realtime_message (Sample.owner_app 41 true true))]).
Proof.
  destruct (throttle_spacing (Sample.owner_app 42 true true)
              (Sample.owner_app 41 true true) Sample.handles
              (Sample.at_ms 5000) (Sample.at_ms 5119) "sala1")
    as (Hfirst & Hsoon & _); [reflexivity | reflexivity | reflexivity | cbn; lia |].
  destruct (throttle_spacing (Sample.owner_app 42 true true)
              (Sample.owner_app 41 true true) Sample.handles
              (Sample.at_ms 5000) (Sample.at_ms 5120) "sala1")
    as (_ & _ & Hlate); [reflexivity | reflexivity | reflexivity | cbn; lia |].
  split; [exact Hfirst|]. split; [apply Hsoon | apply Hlate]; cbn; lia.
Defined.

(** X15. The time stamp starts at zero, and the subscription does not
    touch it: whatever changes in the first 120 ms of the page's clock is
    not sent to the network, joined or not. *)
Theorem first_sends_are_dropped (a a0 : App) (has_bc : bool) (c : Clock) :
  performance_now c < 120 ->
  broadcastRealtime a (snd (subscribe_effect true a0 (initial_handles has_bc))) c
  = (snd (subscribe_effect true a0 (initial_handles has_bc)), [])
  /\ count is_channel_send
       (snd (broadcastAll a (snd (subscribe_effect true a0 (initial_handles has_bc))) c))
     = 0%nat.
Proof.
  intros Hearly.
  assert (Hrt : broadcastRealtime a
                  (snd (subscribe_effect true a0 (initial_handles has_bc))) c
                = (snd (subscribe_effect true a0 (initial_handles has_bc)), []))
    by (apply broadcastRealtime_throttled; cbn; lia).
  split; [done|]. unfold broadcastAll. rewrite Hrt.
  destruct (negb (is_owner (role a))); [done|].
  cbn [snd]. rewrite app_nil_r.
  by destruct (broadcastLocal_counts a
                 (snd (subscribe_effect true a0 (initial_handles has_bc))) c)
    as (_ & _ & ->).
Qed.

Lemma first_sends_are_dropped_witness :
  broadcastRealtime (Sample.owner_app 42 true true)
    (snd (subscribe_effect true (initial Owner "sala1" 180) (initial_handles true)))
    (Sample.at_ms 80)
  = (snd (subscribe_effect true (initial Owner "sala1" 180) (initial_handles true)), []).
Proof.
  apply (first_sends_are_dropped (Sample.owner_app 42 true true)
           (initial Owner "sala1" 180) true (Sample.at_ms 80)).
  cbn. lia.
Defined.

Lemma broadcastAll_owner (a : App) (h : Handles) (c : Clock) :
  is_owner (role a) = true ->
  broadcastAll a h c
  = (fst (broadcastRealtime a h c),
     broadcastLocal a h c ++ snd (broadcastRealtime a h c)).
Proof.
  intros Hr. unfold broadcastAll. rewrite Hr. cbn.
  by destruct (broadcastRealtime a h c).
Qed.

Lemma broadcastLocal_not_channel (a : App) (h : Handles) (c : Clock) :
  List.filter is_channel_send (broadcastLocal a h c) = [].
Proof. unfold broadcastLocal. by destruct (bc h). Qed.

(** X16. On the network the end of the game is lost: when the expiry's
    own call is accepted by the throttle and the renders that follow come
    within 120 ms of it, the one message the expiry puts on the channel
    holds the state before the game was stopped, and the snapshot with
    the game finished goes to the local transports only. *)
Theorem finished_snapshot_dropped_on_network (a : App) (h : Handles)
    (channel : string) (c1 c2 c3 c4 : Clock) :
  expired a = true -> joined a = true ->
  roomChannelRef h = Some channel ->
  120 <= performance_now c1 - lastSentRef h ->
  performance_now c2 - performance_now c1 < 120 ->
  performance_now c4 - performance_now c1 < 120 ->
  List.filter is_channel_send (snd (expiry_cascade a h c1 c2 c3 c4))
  = [ChannelSend channel (realtime_message a)]
  /\ prop (prop (realtime_message a) "payload") "running" = JBool true
  /\ In (StorageSet "rosco-sync"
           (JObj (local_payload (expire a) ++ [("ts", JNum (Date_now c4))])))
        (snd (expiry_cascade a h c1 c2 c3 c4))
  /\ finished (expire a) = true.
Proof.
  intros He Hj Hch Hlate H2 H4.
  destruct (expire_state a He) as (Hx & _ & Hfin & _).
  assert (Hr : is_owner (role a) = true /\ running a = true).
  { unfold expired in He. apply andb_true_iff in He as [He ?].
    by apply andb_true_iff in He as [_ ?]. }
  destruct Hr as [Hr Hrun].
  assert (Hr' : is_owner (role (expire a)) = true /\ joined (expire a) = true)
    by (by rewrite Hx).
  destruct Hr' as [Hr' Hj'].
  rewrite expiry_cascade_joined by done.
  pose proof (broadcastRealtime_accepted a h c1 channel Hch Hj Hlate) as H1.
  assert (Hsoon2 : broadcastRealtime a (setLastSent (performance_now c1) h) c2
                   = (setLastSent (performance_now c1) h, []))
    by (by apply broadcastRealtime_throttled).
  assert (Hsoon4 : broadcastRealtime (expire a) (setLastSent (performance_now c1) h) c4
                   = (setLastSent (performance_now c1) h, []))
    by (by apply broadcastRealtime_throttled).
  rewrite !(broadcastAll_owner a) by done. rewrite H1. cbn [fst snd].
  rewrite Hsoon2. cbn [fst snd].
  rewrite (broadcastAll_owner (expire a)) by done. rewrite Hsoon4. cbn [fst snd].
  split; [|split; [|split]].
  - rewrite !List.filter_app, !broadcastLocal_not_channel. done.
  - cbn. by rewrite Hrun.
  - apply in_or_app. right. apply in_or_app. right.
    rewrite app_nil_r. unfold broadcastLocal. apply in_or_app. right. by left.
  - done.
Qed.

Lemma finished_snapshot_dropped_on_network_witness :
  List.filter is_channel_send
    (snd (expiry_cascade (Sample.owner_app 0 true true) Sample.handles
            (Sample.at_ms 5000) (Sample.at_ms 5001)
            (Sample.at_ms 5004) (Sample.at_ms 5005)))
  = [ChannelSend "sala1" (realtime_message (Sample.owner_app 0 true true))].
Proof.
  apply (finished_snapshot_dropped_on_network (Sample.owner_app 0 true true)
           Sample.handles "sala1" (Sample.at_ms 5000) (Sample.at_ms 5001)
           (Sample.at_ms 5004) (Sample.at_ms 5005));
    try reflexivity; cbn; lia.
Defined.

(** ** The two versions on one channel *)

Section VersionFacts.
Context {rt : Runtime}.

(** X17. The earlier version shares the BroadcastChannel name and the
    storage slot with the present one and knows no rooms: what an owner
    of the earlier version posts is applied by a present player of any
    room, and what a present owner posts is applied by a player of the
    earlier version whatever the owner's room. *)
Theorem versions_share_the_channel (a : App) (h : Handles) (c : Clock)
    (room : string) (m : JsValue) (r : Observer.Replica) :
  (In (BcPost m) (Legacy.broadcast a h c) ->
   Observer.onMsg room m r = snapshot a)
  /\ (In (BcPost m) (snd (broadcastAll a h c)) ->
      Legacy.onMsg m r = snapshot a)
  /\ (forall e text,
        Observer.key e = Some "rosco-sync" -> Observer.newValue e = Some text ->
        JSON_parse text = Some (JObj (Legacy.payload a ++ [("ts", JNum (Date_now c))])) ->
        Observer.onStorage room e r = snapshot a)
  /\ (forall e text,
        Observer.key e = Some "rosco-sync" -> Observer.newValue e = Some text ->
        JSON_parse text = Some (JObj (local_payload a ++ [("ts", JNum (Date_now c))])) ->
        Legacy.onStorage e r = snapshot a).
Proof.
  split; [|split; [|split]].
  - unfold Legacy.broadcast. intros Hm. apply in_app_or in Hm as [Hm | Hm].
    + destruct (bc h); [|done]. destruct Hm as [[= <-] | []].
      by apply onMsg_applies; [|left].
    + by destruct Hm as [[=] | []].
  - intros Hm.
    by destruct (broadcastAll_sends a h c _ Hm) as [[= ->] | [[=] | (ch & _ & _ & [=])]].
  - intros e text Hk Hv Hp.
    rewrite (onStorage_applies room e text _ r Hk Hv Hp); [done | done | by left].
  - intros e text Hk Hv Hp. unfold Legacy.onStorage. rewrite Hv, Hk. cbn.
    destruct (String.eqb_spec text "") as [-> | _];
      [rewrite JSON_parse_empty in Hp; discriminate|].
    cbn. by rewrite Hp.
Qed.

End VersionFacts.

Example legacy_envelope_in_another_room :
  Observer.onMsg "sala2" (JObj (Legacy.payload (Sample.owner_app 42 true true)))
                 Sample.replica
  = snapshot (Sample.owner_app 42 true true).
Proof. reflexivity. Qed.

(** ** The JSON proxy *)

Section ProxyFacts.
Context {rt : Runtime}.
Import Proxy.

(** X18. The proxy contacts nothing but http and https addresses: its
    reply depends on the network only at URLs that start, in any case,
    with [http://] or [https://]; for every other [url] parameter,
    missing and empty ones included, the reply is a 400 without the
    cross-origin header. *)
Theorem proxy_fetches_http_only (fetch fetch' : string -> Upstream) (q : Query) :
  (forall u, is_http u = true -> fetch u = fetch' u) ->
  handler fetch q = handler fetch' q
  /\ (is_http (raw_url q) = false ->
      code (handler fetch q) = 400 /\ allow_origin (handler fetch q) = false).
Proof.
  intros Hsame. unfold handler.
  destruct (raw_url q =? "")%string; [done|].
  destruct (is_http (raw_url q)) eqn:Hh; [|done]. cbn.
  rewrite (Hsame _ Hh). done.
Qed.


(** X19. The proxy's replies: the cross-origin header is set exactly on
    the replies with code 200, these are exactly the replies that carry
    the upstream document, and any other reply has code 400, 415 or 500
    or repeats a status of the upstream that is not an ok status. *)
Theorem proxy_reply_codes (fetch : string -> Upstream) (q : Query) :
  (allow_origin (handler fetch q) = true <-> code (handler fetch q) = 200)
  /\ (code (handler fetch q) = 200 <-> exists data, body (handler fetch q) = Data data)
  /\ (code (handler fetch q) = 200 \/ code (handler fetch q) = 400
      \/ code (handler fetch q) = 415 \/ code (handler fetch q) = 500
      \/ (exists ct text,
            fetch (raw_url q) = UpResponse (code (handler fetch q)) ct text
            /\ ok_status (code (handler fetch q)) = false
            /\ body (handler fetch q) = ErrHttp (code (handler fetch q)))).
Proof.
  unfold handler.
  destruct (raw_url q =? "")%string;
    [cbn; split; [|split]; [split; discriminate | split; [discriminate | by intros []] | auto]|].
  destruct (negb (is_http (raw_url q)));
    [cbn; split; [|split]; [split; discriminate | split; [discriminate | by intros []] | auto]|].
  destruct (fetch (raw_url q)) as [msg | status ct text] eqn:Hf;
    [cbn; split; [|split]; [split; discriminate | split; [discriminate | by intros []] | auto]|].
  destruct (ok_status status) eqn:Hok; cbn [negb].
  - destruct (negb (includes "application/json" match ct with Some v => v | None => "" end));
      destruct (read_json text) as [e | data]; cbn;
      (split; [|split]; [split; try discriminate; done
                        | split; [try discriminate; eauto | try (by intros []); done]
                        | auto]).
  - cbn. assert (status <> 200) by (intros ->; discriminate).
    split; [|split]; [split; [discriminate | done] | split; [done | by intros []] |].
    do 4 right. by exists ct, text.
Qed.

(** X20. A JSON document is relayed whatever content type the upstream
    gives it; a body that is not JSON is answered with 415 when the
    content type does not announce JSON and with 500 when it does. *)
Theorem proxy_content_type_fallback (fetch : string -> Upstream) (q : Query)
    (status : Z) (ct : option string) (text : string) :
  is_http (raw_url q) = true ->
  fetch (raw_url q) = UpResponse status ct (Some text) ->
  ok_status status = true ->
  (forall data, JSON_parse text = Some data ->
     handler fetch q = mkReply 200 true (Data data))
  /\ (JSON_parse text = None ->
      handler fetch q
      = if includes "application/json" match ct with Some v => v | None => "" end
        then mkReply 500 false (ErrThrown BodyNotJson)
        else mkReply 415 false ErrNotJson).
Proof.
  intros Hh Hf Hok. unfold handler.
  assert ((raw_url q =? "")%string = false) as ->.
  { destruct (String.eqb_spec (raw_url q) "") as [He|]; [|done].
    rewrite He in Hh. discriminate. }
  rewrite Hh, Hf, Hok. cbn.
  split; [intros data ->|intros ->];
    by destruct (includes "application/json" match ct with Some v => v | None => "" end).
Qed.


End ProxyFacts.

Lemma proxy_fetches_http_only_witness :
  @Proxy.handler Sample.runtime Demo.upstream (Proxy.QOne "file:///etc/passwd")
  = @Proxy.handler Sample.runtime Demo.open_upstream (Proxy.QOne "file:///etc/passwd")
  /\ (Proxy.is_http (Proxy.raw_url (Proxy.QOne "file:///etc/passwd")) = false ->
      Proxy.code (@Proxy.handler Sample.runtime Demo.upstream
                    (Proxy.QOne "file:///etc/passwd")) = 400
      /\ Proxy.allow_origin (@Proxy.handler Sample.runtime Demo.upstream
                               (Proxy.QOne "file:///etc/passwd")) = false).
Proof.
  apply (proxy_fetches_http_only (rt := Sample.runtime) Demo.upstream
           Demo.open_upstream (Proxy.QOne "file:///etc/passwd")).
  intros u Hu. unfold Demo.open_upstream. rewrite Hu. reflexivity.
Defined.

Lemma proxy_content_type_fallback_witness :
  @Proxy.handler Sample.runtime Demo.upstream
    (Proxy.QOne "HTTPS://example.org/rosco.json")
  = Proxy.mkReply 500 false (Proxy.ErrThrown (Proxy.FetchFailed "getaddrinfo ENOTFOUND"))
  /\ @Proxy.handler Sample.runtime Demo.upstream
       (Proxy.QOne "https://example.org/rosco.json")
     = Proxy.mkReply 200 true (Proxy.Data Sample.untagged).
Proof.
  split; [reflexivity|].
  destruct (proxy_content_type_fallback (rt := Sample.runtime) Demo.upstream
              (Proxy.QOne "https://example.org/rosco.json") 200
              (Some "text/plain") (Sample.json_text Sample.untagged))
    as [Hjson _]; [reflexivity | reflexivity | reflexivity |].
  apply Hjson. reflexivity.
Defined.

(** ** The player link *)

Lemma params_get_delete (name k : string) (ps : list (string * string)) :
  k <> name -> params_get k (params_delete name ps) = params_get k ps.
Proof.
  intros Hk. unfold params_delete. induction ps as [|[k' v] ps IH]; [done|].
  cbn. destruct (String.eqb_spec k' name) as [-> | Hne]; cbn.
  - destruct (String.eqb_spec name k); [congruence | done].
  - by rewrite IH.
Qed.

Lemma params_get_set (name value : string) (ps : list (string * string)) :
  params_get name (params_set name value ps) = Some value.
Proof.
  induction ps as [|[k v] ps IH]; cbn.
  - by rewrite String.eqb_refl.
  - destruct (String.eqb_spec k name) as [-> | Hne]; cbn.
    + by rewrite String.eqb_refl.
    + destruct (String.eqb_spec k name); [congruence | done].
Qed.

Lemma params_get_set_other (name value k : string) (ps : list (string * string)) :
  k <> name -> params_get k (params_set name value ps) = params_get k ps.
Proof.
  intros Hk. induction ps as [|[k' v] ps IH]; cbn.
  - destruct (String.eqb_spec name k); [congruence | done].
  - destruct (String.eqb_spec k' name) as [-> | Hne]; cbn.
    + destruct (String.eqb_spec name k); [congruence|].
      by apply params_get_delete.
    + by rewrite IH.
Qed.

Lemma params_count_cons (name k v : string) (ps : list (string * string)) :
  params_count name ((k, v) :: ps)
  = ((if (k =? name)%string then 1 else 0) + params_count name ps)%nat.
Proof. unfold params_count. cbn. by destruct (k =? name)%string. Qed.

Lemma params_delete_cons (name k v : string) (ps : list (string * string)) :
  params_delete name ((k, v) :: ps)
  = if (k =? name)%string then params_delete name ps
    else (k, v) :: params_delete name ps.
Proof. unfold params_delete. cbn. by destruct (k =? name)%string. Qed.

Lemma params_count_delete (name : string) (ps : list (string * string)) :
  params_count name (params_delete name ps) = 0%nat.
Proof.
  induction ps as [|[k v] ps IH]; [done|]. rewrite params_delete_cons.
  destruct (k =? name)%string eqn:Hk; [done|].
  by rewrite params_count_cons, Hk, IH.
Qed.

Lemma params_count_delete_other (name other : string) (ps : list (string * string)) :
  name <> other ->
  params_count name (params_delete other ps) = params_count name ps.
Proof.
  intros Hne. induction ps as [|[k v] ps IH]; [done|].
  rewrite params_delete_cons, params_count_cons.
  destruct (String.eqb_spec k other) as [-> | Hk].
  - rewrite IH. destruct (String.eqb_spec other name); [congruence | done].
  - by rewrite params_count_cons, IH.
Qed.

Lemma params_count_set (name value : string) (ps : list (string * string)) :
  params_count name (params_set name value ps) = 1%nat.
Proof.
  induction ps as [|[k v] ps IH]; cbn [params_set].
  - by rewrite params_count_cons, String.eqb_refl.
  - destruct (k =? name)%string eqn:Hk.
    + by rewrite params_count_cons, String.eqb_refl, params_count_delete.
    + by rewrite params_count_cons, Hk, IH.
Qed.

Lemma params_count_set_other (name other value : string)
    (ps : list (string * string)) :
  name <> other ->
  params_count name (params_set other value ps) = params_count name ps.
Proof.
  intros Hne.
  assert (Hother : (other =? name)%string = false)
    by (destruct (String.eqb_spec other name); congruence).
  induction ps as [|[k v] ps IH]; cbn [params_set].
  - by rewrite params_count_cons, Hother.
  - rewrite (params_count_cons name k v ps).
    destruct (String.eqb_spec k other) as [-> | Hk].
    + by rewrite params_count_cons, params_count_delete_other, Hother.
    + by rewrite params_count_cons, IH.
Qed.

(** X22. The player link round trip: whatever query the owner's page was
    opened with, the link it offers opens a player session of the owner's
    room (the room id being non-empty), holds one [view] and one [room]
    parameter, and carries every other parameter along unchanged. *)
Theorem player_link_round_trip (a : App) (ps : list (string * string))
    (fresh : string) (d0 : Z) :
  roomId a <> "" ->
  session (player_link a ps) fresh d0 = initial Player (roomId a) d0
  /\ params_count "view" (player_link a ps) = 1%nat
  /\ params_count "room" (player_link a ps) = 1%nat
  /\ (forall k, k <> "view" -> k <> "room" ->
        params_get k (player_link a ps) = params_get k ps).
Proof.
  intros Hroom. unfold session, player_link.
  rewrite params_get_set, params_get_set_other, params_get_set by discriminate.
  split; [|split; [|split]].
  - unfold role_of_view, room_of. cbn.
    destruct (String.eqb_spec (roomId a) ""); [congruence | done].
  - rewrite params_count_set_other by discriminate. apply params_count_set.
  - apply params_count_set.
  - intros k Hv Hr. by rewrite !params_get_set_other.
Qed.

Lemma player_link_round_trip_witness :
  session (player_link (Sample.owner_app 180 false false) Demo.owner_query)
          "x7Kq2p" 180
  = initial Player "sala1" 180.
Proof.
  apply (player_link_round_trip (Sample.owner_app 180 false false)
           Demo.owner_query "x7Kq2p" 180).
  discriminate.
Defined.

(** ** Loads that fail *)

Section FailedLoads.
Context {rt : Runtime}.



End FailedLoads.
